(** * User Settings Service: resolvers of the GraphQL API

    A shallow embedding of the two variants of the service,

    - the [pg] variant (raw SQL through a connection pool, with a
      process-wide result cache), module [Pg];
    - the [Kysely] variant (query builder, no cache), module [Kysely];

    over one model of the relational store they both talk to.  Resolvers
    are computations in a state-and-exception monad over [World]: the
    store, the cache, the wall clock, the UUID generator and the trace of
    statements sent to the store.  A thrown exception keeps the state
    reached so far (nothing is rolled back), as in the source. *)

From Stdlib Require Import ZArith Lia.
From stdpp Require Import base decidable option list strings pretty gmap fin_maps.

Local Open Scope string_scope.
Local Open Scope list_scope.

(** ** Rows of the three tables (interface [Database]) *)

Inductive UserRole := ADMIN | MEMBER | VIEWER.

Record UserRow := mkUser {
  users_id : string;
  users_username : string;
  users_email : string;
  users_role : UserRole;
  users_created_at : Z
}.

Record SettingRow := mkSetting {
  settings_id : string;
  settings_user_id : string;
  setting_key : string;
  setting_value : string;
  settings_updated_at : Z;
  settings_updated_by : option string
}.

Record ActivityRow := mkActivity {
  activity_id : string;
  activity_user_id : string;
  activity_action : string;
  activity_timestamp : Z;
  activity_metadata : option string
}.

Record Database := mkDatabase {
  users : list UserRow;
  settings : list SettingRow;
  activity_log : list ActivityRow
}.

Global Instance UserRole_eq_dec : EqDecision UserRole.
Proof. solve_decision. Defined.
Global Instance UserRow_eq_dec : EqDecision UserRow.
Proof. solve_decision. Defined.
Global Instance SettingRow_eq_dec : EqDecision SettingRow.
Proof. solve_decision. Defined.

(** ** The store

    The SQL statements of the resolvers, as functions on the tables.  Dates
    are milliseconds since the epoch. *)

Module Store.

Inductive DbError :=
| ForeignKeyViolation
| SqlError (message : string).   (* the store cannot run the text it was sent *)

(** [SELECT ... FROM users WHERE id = $1]: the matching rows. *)
Definition select_user (d : Database) (id : string) : list UserRow :=
  filter (λ u, users_id u = id) (users d).

(** [SELECT ... FROM settings WHERE user_id = $1] *)
Definition select_settings (d : Database) (id : string) : list SettingRow :=
  filter (λ s, settings_user_id s = id) (settings d).

(** The conflict target [(user_id, setting_key)]. *)
Definition conflicts (userId key : string) (s : SettingRow) : Prop :=
  settings_user_id s = userId ∧ setting_key s = key.

Global Instance conflicts_dec userId key s : Decision (conflicts userId key s).
Proof. unfold conflicts. apply _. Defined.

(** [DO UPDATE SET setting_value = $3, updated_at = NOW()] *)
Definition do_update_set (value : string) (now : Z) (s : SettingRow) : SettingRow :=
  mkSetting (settings_id s) (settings_user_id s) (setting_key s)
            value now (settings_updated_by s).

Definition update_conflicting (userId key value : string) (now : Z)
    (rows : list SettingRow) : list SettingRow :=
  (λ s, if decide (conflicts userId key s) then do_update_set value now s else s)
    <$> rows.

(** Modelled from the spec: the table definitions are not part of the
    sources.  The spec gives settings and activity entries an owning
    user ("referential violation because the user does not exist",
    "children before parent, to avoid violating referential
    invariants") and makes [(user id, key)] unique; the updater of a
    setting is "a nullable back-reference", null unless written.  So
    the owner columns are foreign keys on [users.id], checked when a
    setting is written and when a user row is deleted, and nothing else
    makes a statement fail.

    [INSERT INTO settings ... ON CONFLICT (user_id, setting_key) DO UPDATE
    SET setting_value, updated_at ... RETURNING ...]: the row written. *)
Definition upsert_setting (d : Database) (id userId key value : string) (now : Z)
    : DbError + (Database * SettingRow) :=
  match select_user d userId with
  | [] => inl ForeignKeyViolation
  | _ :: _ =>
      match filter (conflicts userId key) (settings d) with
      | [] =>
          let row := mkSetting id userId key value now None in
          inr (mkDatabase (users d) (settings d ++ [row]) (activity_log d), row)
      | old :: _ =>
          inr (mkDatabase (users d)
                          (update_conflicting userId key value now (settings d))
                          (activity_log d),
               do_update_set value now old)
      end
  end.

(** [DELETE FROM activity_log WHERE user_id = $1] *)
Definition delete_activity (d : Database) (id : string) : Database :=
  mkDatabase (users d) (settings d)
             (filter (λ a, activity_user_id a ≠ id) (activity_log d)).

(** [DELETE FROM settings WHERE user_id = $1] *)
Definition delete_settings (d : Database) (id : string) : Database :=
  mkDatabase (users d) (filter (λ s, settings_user_id s ≠ id) (settings d))
             (activity_log d).

Definition referenced (d : Database) (id : string) : Prop :=
  select_settings d id ≠ [] ∨
  filter (λ a, activity_user_id a = id) (activity_log d) ≠ [].

Global Instance referenced_dec d id : Decision (referenced d id).
Proof. unfold referenced. apply _. Defined.

(** Modelled from the spec: the owner columns of the missing table
    definitions, as above.  [DELETE FROM users WHERE id = $1] is refused
    while a row to delete is still the owner of settings or activity
    entries. *)
Definition delete_user (d : Database) (id : string) : DbError + Database :=
  match select_user d id with
  | [] => inr d
  | _ :: _ =>
      if decide (referenced d id) then inl ForeignKeyViolation
      else inr (mkDatabase (filter (λ u, users_id u ≠ id) (users d))
                           (settings d) (activity_log d))
  end.

(** The uniqueness constraint behind the conflict target. *)
Definition settings_unique (rows : list SettingRow) : Prop :=
  ∀ userId key, (length (filter (conflicts userId key) rows) ≤ 1)%nat.

End Store.

(** ** The world of a resolver *)

(** A statement sent to the store. *)
Inductive Statement :=
| SelectUser (id : string)
| SelectUserSpliced (text : string)
| SelectSettings (userId : string)
| UpsertSetting (userId key value : string)
| DeleteActivity (userId : string)
| DeleteSettings (userId : string)
| DeleteUser (id : string).

Record CacheEntry := mkEntry { data : UserRow; timestamp : Z }.

Record World := mkWorld {
  db : Database;
  cache : gmap string CacheEntry;   (* the [cache] of the pg variant *)
  clock : Z;                        (* [Date.now()], [NOW()] *)
  uuids : nat;                      (* draws made from the id generator *)
  queries : list Statement          (* statements sent so far, oldest first *)
}.

Inductive Exn :=
| Error (message : string)
| QueryFailed (e : Store.DbError).

Inductive Outcome (A : Type) :=
| Returned (a : A)
| Threw (e : Exn).
Global Arguments Returned {A} a.
Global Arguments Threw {A} e.

Global Instance DbError_eq_dec : EqDecision Store.DbError.
Proof. solve_decision. Defined.
Global Instance Exn_eq_dec : EqDecision Exn.
Proof. solve_decision. Defined.
Global Instance Outcome_eq_dec {A} `{EqDecision A} : EqDecision (Outcome A).
Proof. solve_decision. Defined.

Definition M (A : Type) : Type := World → Outcome A * World.

Global Instance M_ret : MRet M := λ A a w, (Returned a, w).
Global Instance M_bind : MBind M := λ A B f m w,
  match m w with
  | (Returned a, w') => f a w'
  | (Threw e, w') => (Threw e, w')
  end.

Definition throw {A} (e : Exn) : M A := λ w, (Threw e, w).

(** [try { body } catch { handler }] *)
Definition try_catch {A} (body handler : M A) : M A := λ w,
  match body w with
  | (Returned a, w') => (Returned a, w')
  | (Threw _, w') => handler w'
  end.

Fixpoint mapM {A B} (f : A → M B) (l : list A) : M (list B) :=
  match l with
  | [] => mret []
  | x :: l' => y ← f x; ys ← mapM f l'; mret (y :: ys)
  end.

Definition set_db (d : Database) (w : World) : World :=
  mkWorld d (cache w) (clock w) (uuids w) (queries w).
Definition set_cache (c : gmap string CacheEntry) (w : World) : World :=
  mkWorld (db w) c (clock w) (uuids w) (queries w).
Definition sent (q : Statement) (w : World) : World :=
  mkWorld (db w) (cache w) (clock w) (uuids w) (queries w ++ [q]).

(** Time passing between two requests. *)
Definition elapse (dt : Z) (w : World) : World :=
  mkWorld (db w) (cache w) (clock w + dt) (uuids w) (queries w).

Definition Date_now : M Z := λ w, (Returned (clock w), w).

(** [crypto.randomUUID()], and the default of the [id] column where the
    statement leaves the id out: the n-th draw. *)
Definition uuid (n : nat) : string := "uuid-" +:+ pretty n.

Definition randomUUID : M string := λ w,
  (Returned (uuid (uuids w)),
   mkWorld (db w) (cache w) (clock w) (S (uuids w)) (queries w)).

(** *** The store adapter: each call sends one statement *)

Definition query_user (id : string) : M (list UserRow) := λ w,
  (Returned (Store.select_user (db w) id), sent (SelectUser id) w).

(** [SELECT ... FROM users WHERE id = ${id}]: the id is spliced into the
    text of the statement instead of being passed as [$1], so the store
    reads it as SQL.  What the store makes of a text is the store's affair:
    [where_id text d] stands for its answer to the statement with [text]
    after [WHERE id =], on the tables [d]: the rows, or the error the
    statement fails with. *)
Definition query_user_spliced
    (where_id : string → Database → Store.DbError + list UserRow)
    (id : string) : M (list UserRow) := λ w,
  let w' := sent (SelectUserSpliced id) w in
  match where_id id (db w) with
  | inl e => (Threw (QueryFailed e), w')
  | inr rows => (Returned rows, w')
  end.

Definition query_settings (userId : string) : M (list SettingRow) := λ w,
  (Returned (Store.select_settings (db w) userId), sent (SelectSettings userId) w).

Definition query_upsert (id userId key value : string) : M SettingRow := λ w,
  let w' := sent (UpsertSetting userId key value) w in
  match Store.upsert_setting (db w) id userId key value (clock w) with
  | inl e => (Threw (QueryFailed e), w')
  | inr (d, row) => (Returned row, set_db d w')
  end.

Definition query_delete_activity (id : string) : M unit := λ w,
  (Returned (), set_db (Store.delete_activity (db w) id) (sent (DeleteActivity id) w)).

Definition query_delete_settings (id : string) : M unit := λ w,
  (Returned (), set_db (Store.delete_settings (db w) id) (sent (DeleteSettings id) w)).

Definition query_delete_user (id : string) : M unit := λ w,
  let w' := sent (DeleteUser id) w in
  match Store.delete_user (db w) id with
  | inl e => (Threw (QueryFailed e), w')
  | inr d => (Returned (), set_db d w')
  end.

(** ** Inputs and payloads of the schema, the same in both variants *)

Record SettingInput := mkSettingInput { input_key : string; input_value : string }.

Record BulkSettingInput := mkBulkSettingInput {
  userId : string;
  bulk_key : string;
  bulk_value : string
}.

Record BulkSettingsPayload := mkBulkSettingsPayload {
  bulk_success : bool;
  updatedCount : nat;
  failedUserIds : list string
}.

Record DeletePayload := mkDeletePayload { delete_success : bool; deletedId : string }.

(** ** The Kysely variant (nodeJS/graphql-node-review.ts) *)

Module Kysely.
Section Resolvers.

(** [Date.prototype.toISOString], a library function. *)
Variable toISOString : Z → string.

(** What the resolvers hand to GraphQL. *)
Record UserObj := mkUserObj {
  row : UserRow;          (* [...user] *)
  createdAt : string
}.

Record SettingObj := mkSettingObj {
  obj_id : string;
  key : string;
  value : string;
  updatedAt : string;
  updatedById : option string   (* [None]: null, or the field is not there *)
}.

Record SettingsPayload := mkSettingsPayload {
  success : bool;
  user : UserObj;
  payload_settings : list SettingObj
}.

(** [{ ...user, createdAt: user.created_at.toISOString() }] *)
Definition user_obj (u : UserRow) : UserObj :=
  mkUserObj u (toISOString (users_created_at u)).

(** [user ? { ...user, createdAt: ... } : null] *)
Definition user_or_null (user : option UserRow) : option UserObj :=
  user_obj <$> user.

(** [.executeTakeFirst()] on a user lookup *)
Definition select_user_first (id : string) : M (option UserRow) :=
  rows ← query_user id; mret (head rows).

Definition Query_user (id : string) : M (option UserObj) :=
  user ← select_user_first id;
  mret (user_or_null user).

(** [me]; [ctxUserId] is [ctx.userId], [None] when the context has no such
    field.  [!ctx.userId] holds of the empty string too. *)
Definition Query_me (ctxUserId : option string) : M (option UserObj) :=
  match ctxUserId with
  | None => mret None
  | Some userId =>
      if bool_decide (userId = "") then mret None
      else user ← select_user_first userId;
           mret (user_or_null user)
  end.

(** [Promise.all] over the lookups: the statements go out in input order
    and the results keep their positions. *)
Definition Query_users (ids : list string) : M (list (option UserObj)) :=
  results ← mapM select_user_first ids;
  mret (map user_or_null results).

Definition setting_obj (s : SettingRow) : SettingObj :=
  mkSettingObj (settings_id s) (setting_key s) (setting_value s)
               (toISOString (settings_updated_at s)) (settings_updated_by s).

Definition User_settings (userId : string) : M (list SettingObj) :=
  rows ← query_settings userId; mret (map setting_obj rows).

(** [!setting.updatedById] holds of null, of a field that is not there and
    of the empty string. *)
Definition Setting_updatedBy (setting : SettingObj) : M (option UserObj) :=
  match updatedById setting with
  | None => mret None
  | Some updatedById =>
      if bool_decide (updatedById = "") then mret None
      else user ← select_user_first updatedById;
           mret (user_or_null user)
  end.

(** The upsert both mutations send. *)
Definition upsert (userId key value : string) : M SettingRow :=
  id ← randomUUID;
  query_upsert id userId key value.

(** The loop of [updateSettings]; [updatedSettings] is the array being
    filled.  The upsert always hands a row back, so
    [executeTakeFirstOrThrow] throws only what the statement throws. *)
Fixpoint updateSettings_loop (userId : string) (settings : list SettingInput)
    (updatedSettings : list SettingObj) : M (list SettingObj) :=
  match settings with
  | [] => mret updatedSettings
  | s :: rest =>
      result ← upsert userId (input_key s) (input_value s);
      updateSettings_loop userId rest
        (updatedSettings ++
           [mkSettingObj (settings_id result) (setting_key result)
                         (setting_value result)
                         (toISOString (settings_updated_at result)) None])
  end.

Definition updateSettings (userId : string) (settings : list SettingInput)
    : M SettingsPayload :=
  user ← select_user_first userId;
  match user with
  | None => throw (Error "User not found")
  | Some user =>
      updatedSettings ← updateSettings_loop userId settings [];
      mret (mkSettingsPayload true (user_obj user) updatedSettings)
  end.

Definition deleteUser (id : string) : M DeletePayload :=
  query_delete_activity id;;
  query_delete_settings id;;
  query_delete_user id;;
  mret (mkDeletePayload true id).

(** The loop of [bulkUpdateSettings] over its two local variables. *)
Fixpoint bulkUpdateSettings_loop (updates : list BulkSettingInput)
    (failed : list string) (count : nat) : M (list string * nat) :=
  match updates with
  | [] => mret (failed, count)
  | u :: rest =>
      vars ← try_catch
        (upsert (userId u) (bulk_key u) (bulk_value u);;
         mret (failed, S count))
        (mret (failed ++ [userId u], count));
      bulkUpdateSettings_loop rest vars.1 vars.2
  end.

Definition bulkUpdateSettings (updates : list BulkSettingInput)
    : M BulkSettingsPayload :=
  vars ← bulkUpdateSettings_loop updates [] 0%nat;
  mret (mkBulkSettingsPayload (bool_decide (length vars.1 = 0%nat)) vars.2 vars.1).

End Resolvers.
End Kysely.

(** ** The pg variant (unnamed/part_000: raw SQL, result cache) *)

Module Pg.

(** The rows go to GraphQL as they come back, under the column aliases. *)
Record SettingObj := mkSettingObj {
  obj_id : string;
  key : string;
  value : string;
  updatedAt : Z;
  updatedById : option string   (* [None]: null, or the field is not there *)
}.

Record SettingsPayload := mkSettingsPayload {
  success : bool;
  user : UserRow;
  payload_settings : list SettingObj
}.

Definition CACHE_TTL : Z := 5 * 60 * 1000.

(** [cache.get(key)], [cache.set(key, entry)], [cache.delete(key)] *)
Definition cache_get (key : string) : M (option CacheEntry) := λ w,
  (Returned (cache w !! key), w).

Definition cache_set (key : string) (entry : CacheEntry) : M unit := λ w,
  (Returned (), set_cache (<[key := entry]> (cache w)) w).

Definition cache_delete (key : string) : M unit := λ w,
  (Returned (), set_cache (delete key (cache w)) w).

Definition getCache (key : string) : M (option UserRow) :=
  entry ← cache_get key;
  match entry with
  | Some entry =>
      now ← Date_now;
      if decide (now - timestamp entry < CACHE_TTL)%Z
      then mret (Some (data entry))
      else mret None
  | None => mret None
  end.

Definition setCache (key : string) (data : UserRow) : M unit :=
  now ← Date_now;
  cache_set key (mkEntry data now).

(** [`user:${id}`] *)
Definition user_key (id : string) : string := "user:" +:+ id.

Section Spliced.

(** The store's answer to the statement of [user], whose text is made
    with the id. *)
Variable where_id : string → Database → Store.DbError + list UserRow.

Definition Query_user (id : string) : M (option UserRow) :=
  cached ← getCache (user_key id);
  match cached with
  | Some cached => mret (Some cached)
  | None =>
      rows ← query_user_spliced where_id id;
      match rows with
      | [] => mret None
      | first :: _ => setCache (user_key id) first;; mret (Some first)
      end
  end.

End Spliced.

(** [me]; [ctxUserId] is [ctx.userId], [None] when the context has no such
    field.  [!ctx.userId] holds of the empty string too; [rows[0] || null]. *)
Definition Query_me (ctxUserId : option string) : M (option UserRow) :=
  match ctxUserId with
  | None => mret None
  | Some userId =>
      if bool_decide (userId = "") then mret None
      else rows ← query_user userId;
           mret (head rows)
  end.

(** [Promise.all(ids.map(async (id) => ...))].  Each callback runs up to its
    [await] as soon as [map] calls it: the cache is read and the statement
    sent for every id, in input order, before any callback goes on.  The
    callbacks that wait go on when their rows are there; [Promise.all]
    keeps the positions. *)
Definition users_until_await (id : string) : M (string * (UserRow + list UserRow)) :=
  cached ← getCache (user_key id);
  match cached with
  | Some cached => mret (id, inl cached)
  | None => rows ← query_user id; mret (id, inr rows)
  end.

Definition users_after_await (p : string * (UserRow + list UserRow))
    : M (option UserRow) :=
  match p.2 with
  | inl cached => mret (Some cached)
  | inr [] => mret None
  | inr (first :: _) => setCache (user_key p.1) first;; mret (Some first)
  end.

Definition Query_users (ids : list string) : M (list (option UserRow)) :=
  pending ← mapM users_until_await ids;
  mapM users_after_await pending.

Definition setting_obj (s : SettingRow) : SettingObj :=
  mkSettingObj (settings_id s) (setting_key s) (setting_value s)
               (settings_updated_at s) (settings_updated_by s).

Definition User_settings (userId : string) : M (list SettingObj) :=
  rows ← query_settings userId; mret (map setting_obj rows).

(** [!setting.updatedById] holds of null, of a field that is not there and
    of the empty string; [rows[0] || null]. *)
Definition Setting_updatedBy (setting : SettingObj) : M (option UserRow) :=
  match updatedById setting with
  | None => mret None
  | Some updatedById =>
      if bool_decide (updatedById = "") then mret None
      else rows ← query_user updatedById;
           mret (head rows)
  end.

(** The upsert both mutations send; the statement names no id, the column
    default draws one. *)
Definition upsert (userId key value : string) : M SettingRow :=
  id ← randomUUID;
  query_upsert id userId key value.

(** The loop of [updateSettings]; the rows come back through [RETURNING id,
    key, value, updatedAt]. *)
Fixpoint updateSettings_loop (userId : string) (settings : list SettingInput)
    (updatedSettings : list SettingObj) : M (list SettingObj) :=
  match settings with
  | [] => mret updatedSettings
  | s :: rest =>
      result ← upsert userId (input_key s) (input_value s);
      updateSettings_loop userId rest
        (updatedSettings ++
           [mkSettingObj (settings_id result) (setting_key result)
                         (setting_value result) (settings_updated_at result) None])
  end.

Definition updateSettings (userId : string) (settings : list SettingInput)
    : M SettingsPayload :=
  userResult ← query_user userId;
  match userResult with
  | [] => throw (Error "User not found")
  | first :: _ =>
      updatedSettings ← updateSettings_loop userId settings [];
      cache_delete (user_key userId);;
      mret (mkSettingsPayload true first updatedSettings)
  end.

Definition deleteUser (id : string) : M DeletePayload :=
  query_delete_settings id;;
  query_delete_user id;;
  cache_delete (user_key id);;
  mret (mkDeletePayload true id).

(** The loop of [bulkUpdateSettings] over its two local variables; the
    count goes up once the upsert is through, before the cache entry is
    dropped, and dropping it cannot throw. *)
Fixpoint bulkUpdateSettings_loop (updates : list BulkSettingInput)
    (failed : list string) (count : nat) : M (list string * nat) :=
  match updates with
  | [] => mret (failed, count)
  | u :: rest =>
      vars ← try_catch
        (upsert (userId u) (bulk_key u) (bulk_value u);;
         cache_delete (user_key (userId u));;
         mret (failed, S count))
        (mret (failed ++ [userId u], count));
      bulkUpdateSettings_loop rest vars.1 vars.2
  end.

Definition bulkUpdateSettings (updates : list BulkSettingInput)
    : M BulkSettingsPayload :=
  vars ← bulkUpdateSettings_loop updates [] 0%nat;
  mret (mkBulkSettingsPayload (bool_decide (length vars.1 = 0%nat)) vars.2 vars.1).

End Pg.

(** * Vocabulary of the properties *)

(** ** Runs of upserts

    Both mutations send their upserts one after the other, and an upsert
    the store refuses leaves the store as it is.  [upsert_all] is the store
    a run leaves, [last_write] the value the run writes last under a (user
    id, key). *)

Definition upsert_db (now : Z) (d : Database) (id : string) (u : BulkSettingInput)
    : Database :=
  match Store.upsert_setting d id (userId u) (bulk_key u) (bulk_value u) now with
  | inr (d', _) => d'
  | inl _ => d
  end.

Fixpoint upsert_all (now : Z) (n : nat) (d : Database) (us : list BulkSettingInput)
    : Database :=
  match us with
  | [] => d
  | u :: rest => upsert_all now (S n) (upsert_db now d (uuid n) u) rest
  end.

Definition writes_to (uid k : string) (u : BulkSettingInput) : Prop :=
  userId u = uid ∧ bulk_key u = k.

Global Instance writes_to_dec uid k u : Decision (writes_to uid k u).
Proof. unfold writes_to. apply _. Defined.

Fixpoint last_write (uid k : string) (us : list BulkSettingInput) : option string :=
  match us with
  | [] => None
  | u :: rest =>
      match last_write uid k rest with
      | Some v => Some v
      | None => if decide (writes_to uid k u) then Some (bulk_value u) else None
      end
  end.

(** [settings] of [updateSettings] as entries for one user. *)
Definition for_user (uid : string) (settings : list SettingInput) : list BulkSettingInput :=
  map (λ s, mkBulkSettingInput uid (input_key s) (input_value s)) settings.

(** The value an [updateSettings] call writes last under a key. *)
Definition last_value (k : string) (settings : list SettingInput) : option string :=
  last (map input_value (filter (λ s, input_key s = k) settings)).

(** A setting is in the store under (user id, key) with this value. *)
Definition persisted (d : Database) (uid k v : string) : Prop :=
  ∃ s, s ∈ settings d ∧ Store.conflicts uid k s ∧ setting_value s = v.

(** The row [s] is the row [old] but for its value and date. *)
Definition same_but_value (old s : SettingRow) : Prop :=
  settings_id s = settings_id old ∧ settings_user_id s = settings_user_id old
  ∧ setting_key s = setting_key old
  ∧ settings_updated_by s = settings_updated_by old.

(** A store where no setting has an updater on record, such as one whose
    settings were all written by the two mutations. *)
Definition no_updaters (d : Database) : Prop :=
  ∀ s, s ∈ settings d → settings_updated_by s = None.

(** ** Worlds after a run *)

Definition upsert_statement (u : BulkSettingInput) : Statement :=
  UpsertSetting (userId u) (bulk_key u) (bulk_value u).

(** The world after the upserts of [us] were sent, whatever their fate. *)
Definition after_upserts (w : World) (us : list BulkSettingInput) : World :=
  mkWorld (upsert_all (clock w) (uuids w) (db w) us) (cache w) (clock w)
          (uuids w + length us) (queries w ++ map upsert_statement us).

Definition sent_all (qs : list Statement) (w : World) : World :=
  mkWorld (db w) (cache w) (clock w) (uuids w) (queries w ++ qs).

(** ** Bulk update *)

Definition user_exists (d : Database) (u : BulkSettingInput) : Prop :=
  Store.select_user d (userId u) ≠ [].

Global Instance user_exists_dec d u : Decision (user_exists d u).
Proof. unfold user_exists. apply _. Defined.

(** The entries of a bulk update the store accepts, and the ones it
    refuses. *)
Definition accepted (d : Database) (us : list BulkSettingInput) : list BulkSettingInput :=
  filter (user_exists d) us.

Definition refused (d : Database) (us : list BulkSettingInput) : list BulkSettingInput :=
  filter (λ u, ¬ user_exists d u) us.

(** The cache of the pg variant after a bulk update: the entries of the
    users whose upsert went through are gone. *)
Definition invalidated (c : gmap string CacheEntry) (us : list BulkSettingInput)
    : gmap string CacheEntry :=
  foldl (λ c u, delete (Pg.user_key (userId u)) c) c us.

(** What either variant returns, the statements it sends and the store it
    leaves. *)
Definition bulk_outcome (bulk : list BulkSettingInput → M BulkSettingsPayload)
    (w : World) (us : list BulkSettingInput) : Prop :=
  (bulk us w).1 =
    Returned (mkBulkSettingsPayload
                (bool_decide (length (map userId (refused (db w) us)) = 0))
                (length (accepted (db w) us))
                (map userId (refused (db w) us)))
  ∧ queries (bulk us w).2 = queries w ++ map upsert_statement us
  ∧ db (bulk us w).2 = upsert_all (clock w) (uuids w) (db w) us.

(** A turn of the loop of [bulkUpdateSettings] goes on with one more in the
    count, or with the user id pushed, and the other variable as it was. *)
Definition counts_or_pushes
    (loop : list BulkSettingInput → list string → nat → M (list string * nat))
    : Prop :=
  ∀ u us failed count w, ∃ w',
    loop (u :: us) failed count w = loop us failed (S count) w'
    ∨ loop (u :: us) failed count w = loop us (failed ++ [userId u]) count w'.

(** A property of [bulkUpdateSettings] that holds of both variants. *)
Definition bulk_in_both (P : (list BulkSettingInput → M BulkSettingsPayload) → Prop)
    : Prop :=
  P Kysely.bulkUpdateSettings ∧ P Pg.bulkUpdateSettings.

(** ** Single-user update *)

(** The settings handed back by [updateSettings] carry the keys and values
    of the input, in input order, and no updater. *)
Definition echoes {O} (key value : O → string) (updatedById : O → option string)
    (objs : list O) (settings : list SettingInput) : Prop :=
  map (λ o, (key o, value o)) objs = map (λ s, (input_key s, input_value s)) settings
  ∧ Forall (λ o, updatedById o = None) objs.

(** ** The two mutations, as steps *)

Inductive Mutation :=
| UpdateSettings (userId : string) (settings : list SettingInput)
| BulkUpdateSettings (updates : list BulkSettingInput).

(** The world a mutation leaves, whether it returns or throws. *)
Definition Kysely_mutate (toISOString : Z → string) (w : World) (m : Mutation)
    : World :=
  match m with
  | UpdateSettings userId settings =>
      (Kysely.updateSettings toISOString userId settings w).2
  | BulkUpdateSettings updates => (Kysely.bulkUpdateSettings updates w).2
  end.

Definition Pg_mutate (w : World) (m : Mutation) : World :=
  match m with
  | UpdateSettings userId settings => (Pg.updateSettings userId settings w).2
  | BulkUpdateSettings updates => (Pg.bulkUpdateSettings updates w).2
  end.

(** ** The cache of the pg variant *)

(** What [getCache] finds under a key: the data of an entry younger than
    the TTL. *)
Definition fresh (w : World) (key : string) : option UserRow :=
  match cache w !! key with
  | Some entry =>
      if decide (clock w - timestamp entry < Pg.CACHE_TTL)%Z
      then Some (data entry) else None
  | None => None
  end.

(** Where a callback of [users] stands at its [await] ... *)
Definition pending (w : World) (id : string) : string * (UserRow + list UserRow) :=
  (id, match fresh w (Pg.user_key id) with
       | Some cached => inl cached
       | None => inr (Store.select_user (db w) id)
       end).

(** ... and what it returns in the end. *)
Definition settled (p : string * (UserRow + list UserRow)) : option UserRow :=
  match p.2 with
  | inl cached => Some cached
  | inr rows => head rows
  end.

(** Every entry of the cache holds the row the store has for the user. *)
Definition cache_coherent (w : World) : Prop :=
  ∀ id entry, cache w !! Pg.user_key id = Some entry →
    head (Store.select_user (db w) id) = Some (data entry).

(** ** The spliced statement of [user] *)

(** On the tables [d] the store reads the text [id], spliced after [WHERE
    id =], as the id itself: the statement gives what the lookup with [$1]
    gives. *)
Definition reads_as_id (where_id : string → Database → Store.DbError + list UserRow)
    (id : string) (d : Database) : Prop :=
  where_id id d = inr (Store.select_user d id).

(** ** Worlds to run the resolvers on *)

Definition alice : UserRow := mkUser "U1" "alice" "alice@example.org" ADMIN 1700000000000.

Definition carol : UserRow := mkUser "U3" "carol" "carol@example.org" VIEWER 1700000300000.

Definition theme_dark : SettingRow :=
  mkSetting "s-1" "U1" "theme" "dark" 1700000400000 (Some "U3").

Definition signed_in : ActivityRow :=
  mkActivity "a-1" "U1" "login" 1700000500000 None.

Definition example_db : Database :=
  mkDatabase [alice; carol] [theme_dark] [signed_in].

Definition example_world : World :=
  mkWorld example_db ∅ 1700000600000 0 [].

Definition example_world_no_updaters : World :=
  mkWorld (mkDatabase [alice; carol]
             [mkSetting "s-1" "U1" "theme" "dark" 1700000400000 None] [])
          ∅ 1700000600000 0 [].

(** The answers of a store to the texts that the examples splice after
    [WHERE id =].  A numeral is the id to look up (integer ids).  A numeral
    followed by [OR 1=1] makes a condition that holds of every row.  The
    other texts of the examples, such as [U1], name a column that the
    table does not have, and the statement fails. *)
Definition is_digit (a : Ascii.ascii) : bool :=
  (48 <=? Ascii.nat_of_ascii a)%nat && (Ascii.nat_of_ascii a <=? 57)%nat.

Fixpoint all_digits (s : string) : bool :=
  match s with
  | EmptyString => true
  | String a s' => is_digit a && all_digits s'
  end.

Definition numeral (s : string) : bool :=
  match s with
  | EmptyString => false
  | String a s' =>
      all_digits s && (negb (Ascii.nat_of_ascii a =? 48)%nat || String.eqb s' "")
  end.

Definition or_true : string := " OR 1=1".

Definition example_where_id (text : string) (d : Database)
    : Store.DbError + list UserRow :=
  if numeral text then inr (Store.select_user d text)
  else
    let n := (String.length text - String.length or_true)%nat in
    if numeral (String.substring 0 n text)
       && String.eqb (String.substring n (String.length or_true) text) or_true
    then inr (users d)
    else inl (Store.SqlError ("column does not exist: " +:+ text)).

Definition alice_1 : UserRow := mkUser "1" "alice" "alice@example.org" ADMIN 1700000000000.
Definition carol_3 : UserRow := mkUser "3" "carol" "carol@example.org" VIEWER 1700000300000.

Definition example_world_integer_ids : World :=
  mkWorld (mkDatabase [alice_1; carol_3] [] []) ∅ 1700000600000 0 [].

(** A cache that still holds carol, five seconds old, for an id the store
    has no user for. *)
Definition example_world_stale : World :=
  mkWorld (mkDatabase [alice] [] [])
          {[ "user:U3" := mkEntry carol 1700000595000 ]} 1700000600000 0 [].

(** Unfolds the monad. *)
Ltac run := unfold mbind, M_bind, mret, M_ret, throw, try_catch; simpl.

(** * Properties *)

(** ** The store: one upsert *)

Section StoreFacts.
Import Store.

Implicit Types (d : Database) (rows : list SettingRow) (s : SettingRow).

(** A user lookup only reads the users table. *)
Lemma select_user_ext d d' id :
  users d' = users d → select_user d' id = select_user d id.
Proof. unfold select_user. by intros ->. Qed.

Lemma upsert_setting_no_user d id userId key value now :
  select_user d userId = [] →
  upsert_setting d id userId key value now = inl ForeignKeyViolation.
Proof. unfold upsert_setting. by intros ->. Qed.

Lemma upsert_setting_user d id userId key value now :
  select_user d userId ≠ [] →
  ∃ d' row, upsert_setting d id userId key value now = inr (d', row).
Proof.
  unfold upsert_setting. destruct (select_user d userId); [done|]. intros _.
  destruct (filter _ (settings d)); eauto.
Qed.

Lemma upsert_setting_frame d id userId key value now d' row :
  upsert_setting d id userId key value now = inr (d', row) →
  users d' = users d ∧ activity_log d' = activity_log d.
Proof.
  unfold upsert_setting. destruct (select_user d userId); [done|].
  destruct (filter _ (settings d)); intros [= <- _]; done.
Qed.

Lemma do_update_set_conflicts userId key value now s :
  conflicts userId key (do_update_set value now s) ↔ conflicts userId key s.
Proof. done. Qed.

Lemma filter_update_conflicting_same userId key value now rows :
  filter (conflicts userId key) (update_conflicting userId key value now rows)
  = do_update_set value now <$> filter (conflicts userId key) rows.
Proof.
  unfold update_conflicting. induction rows as [|s rows IH]; [done|].
  rewrite fmap_cons, !filter_cons. cbn beta.
  destruct (decide (conflicts userId key s)) as [H|H].
  - rewrite decide_True by done. rewrite fmap_cons. by f_equal.
  - by rewrite decide_False.
Qed.

Lemma filter_update_conflicting_other userId key value now userId' key' rows :
  (userId', key') ≠ (userId, key) →
  filter (conflicts userId' key') (update_conflicting userId key value now rows)
  = filter (conflicts userId' key') rows.
Proof.
  intros Hne. unfold update_conflicting. induction rows as [|s rows IH]; [done|].
  rewrite fmap_cons, !filter_cons. cbn beta.
  destruct (decide (conflicts userId key s)) as [H|H].
  - rewrite !decide_False; [done| |].
    + destruct H as [<- <-]. intros [? ?]. apply Hne. by f_equal.
    + destruct H as [<- <-]. intros [? ?]. apply Hne. by f_equal.
  - by rewrite IH.
Qed.

(** The rows under the conflict target after an upsert: the old ones with
    the new value and date, or the one new row. *)
Lemma upsert_setting_same d id userId key value now d' row :
  upsert_setting d id userId key value now = inr (d', row) →
  filter (conflicts userId key) (settings d') =
    match filter (conflicts userId key) (settings d) with
    | [] => [mkSetting id userId key value now None]
    | olds => do_update_set value now <$> olds
    end.
Proof.
  unfold upsert_setting. destruct (select_user d userId); [done|].
  destruct (filter _ (settings d)) as [|old olds] eqn:E; intros [= <- _]; simpl.
  - rewrite filter_app, E. simpl. rewrite filter_cons, decide_True; done.
  - by rewrite filter_update_conflicting_same, E.
Qed.

(** Rows under another (user id, key) are not touched. *)
Lemma upsert_setting_other d id userId key value now d' row userId' key' :
  upsert_setting d id userId key value now = inr (d', row) →
  (userId', key') ≠ (userId, key) →
  filter (conflicts userId' key') (settings d') =
  filter (conflicts userId' key') (settings d).
Proof.
  unfold upsert_setting. destruct (select_user d userId); [done|].
  destruct (filter _ (settings d)) as [|old olds] eqn:E; intros [= <- _] Hne; simpl.
  - rewrite filter_app. simpl. rewrite filter_cons, decide_False, app_nil_r; [done|].
    intros [? ?]; simpl in *. apply Hne. by f_equal.
  - by apply filter_update_conflicting_other.
Qed.

Lemma upsert_setting_unique d id userId key value now d' row :
  upsert_setting d id userId key value now = inr (d', row) →
  settings_unique (settings d) → settings_unique (settings d').
Proof.
  intros Hup Hu userId' key'.
  destruct (decide ((userId', key') = (userId, key))) as [[= -> ->]|Hne].
  - rewrite (upsert_setting_same _ _ _ _ _ _ _ _ Hup).
    specialize (Hu userId key).
    destruct (filter _ (settings d)); [simpl; lia|]. by rewrite length_fmap.
  - rewrite (upsert_setting_other _ _ _ _ _ _ _ _ _ _ Hup Hne). apply Hu.
Qed.

(** Where the rows of the table come from after an upsert. *)
Lemma upsert_setting_rows d id userId key value now d' row s :
  upsert_setting d id userId key value now = inr (d', row) →
  s ∈ settings d' →
  s ∈ settings d
  ∨ (∃ old, old ∈ settings d ∧ conflicts userId key old
            ∧ s = do_update_set value now old)
  ∨ (filter (conflicts userId key) (settings d) = []
     ∧ s = mkSetting id userId key value now None).
Proof.
  unfold upsert_setting. destruct (select_user d userId); [done|].
  destruct (filter _ (settings d)) as [|old olds] eqn:E; intros [= <- _]; simpl.
  - rewrite elem_of_app, list_elem_of_singleton. intros [?| ->]; [by left|by right; right].
  - unfold update_conflicting. rewrite list_elem_of_fmap.
    intros (x & -> & Hx). destruct (decide (conflicts userId key x)); [right; left|left]; eauto.
Qed.

End StoreFacts.

(** ** The store: a run of upserts *)

Section UpsertRuns.
Import Store.

Implicit Types (d : Database) (us : list BulkSettingInput).

Lemma upsert_db_frame now d id u :
  users (upsert_db now d id u) = users d
  ∧ activity_log (upsert_db now d id u) = activity_log d.
Proof.
  unfold upsert_db.
  destruct (upsert_setting _ _ _ _ _ _) as [|[d' row]] eqn:E; [done|].
  by apply upsert_setting_frame in E.
Qed.

Lemma upsert_all_frame now us : ∀ n d,
  users (upsert_all now n d us) = users d
  ∧ activity_log (upsert_all now n d us) = activity_log d.
Proof.
  induction us as [|u us IH]; intros n d; [done|]. simpl.
  destruct (IH (S n) (upsert_db now d (uuid n) u)) as [-> ->].
  apply upsert_db_frame.
Qed.

Lemma upsert_all_select_user now us n d id :
  select_user (upsert_all now n d us) id = select_user d id.
Proof. apply select_user_ext, upsert_all_frame. Qed.

Lemma upsert_db_unique now d id u :
  settings_unique (settings d) → settings_unique (settings (upsert_db now d id u)).
Proof.
  unfold upsert_db. intros H.
  destruct (upsert_setting _ _ _ _ _ _) as [|[d' row]] eqn:E; [done|].
  by eapply upsert_setting_unique.
Qed.

Lemma upsert_all_unique now us : ∀ n d,
  settings_unique (settings d) → settings_unique (settings (upsert_all now n d us)).
Proof.
  induction us as [|u us IH]; intros n d H; [done|]. simpl.
  by apply IH, upsert_db_unique.
Qed.

Lemma upsert_db_other now d id u uid k :
  ¬ writes_to uid k u →
  filter (conflicts uid k) (settings (upsert_db now d id u))
  = filter (conflicts uid k) (settings d).
Proof.
  intros Hw. unfold upsert_db.
  destruct (upsert_setting _ _ _ _ _ _) as [|[d' row]] eqn:E; [done|].
  eapply upsert_setting_other; [done|].
  intros [= -> ->]. by apply Hw.
Qed.

(** A (user id, key) the run does not write keeps its rows. *)
Lemma upsert_all_untouched now uid k us : ∀ n d,
  last_write uid k us = None →
  filter (conflicts uid k) (settings (upsert_all now n d us))
  = filter (conflicts uid k) (settings d).
Proof.
  induction us as [|u us IH]; intros n d H; [done|]. simpl in *.
  destruct (last_write uid k us); [done|]. case_decide; [done|].
  rewrite IH by done. by apply upsert_db_other.
Qed.

(** After a successful write there is a row under the conflict target, and
    every row there holds the value written. *)
Lemma upsert_db_same now d id u :
  select_user d (userId u) ≠ [] →
  let rows := filter (conflicts (userId u) (bulk_key u))
                     (settings (upsert_db now d id u)) in
  rows ≠ [] ∧ ∀ s, s ∈ rows → setting_value s = bulk_value u.
Proof.
  intros Hu. unfold upsert_db.
  destruct (upsert_setting_user d id (userId u) (bulk_key u) (bulk_value u) now Hu)
    as (d' & row & E).
  rewrite E. simpl. rewrite (upsert_setting_same _ _ _ _ _ _ _ _ E).
  destruct (filter _ (settings d)) as [|old olds].
  - split; [done|]. by intros s ->%list_elem_of_singleton.
  - split; [done|]. by intros s (x & -> & _)%list_elem_of_fmap.
Qed.

(** Last write wins. *)
Lemma upsert_all_last now uid k v us : ∀ n d,
  select_user d uid ≠ [] →
  last_write uid k us = Some v →
  let rows := filter (conflicts uid k) (settings (upsert_all now n d us)) in
  rows ≠ [] ∧ ∀ s, s ∈ rows → setting_value s = v.
Proof.
  induction us as [|u us IH]; intros n d Hu H; [done|]. simpl in *.
  destruct (last_write uid k us) as [v'|] eqn:E.
  - injection H as ->. apply IH; [|done].
    by rewrite (select_user_ext d) by apply upsert_db_frame.
  - case_decide as Hw; [|done]. injection H as <-. destruct Hw as [<- <-].
    rewrite upsert_all_untouched by done. by apply upsert_db_same.
Qed.

(** Under the uniqueness constraint: exactly one row, holding the last
    value. *)
Lemma upsert_all_last_unique now uid k v us n d :
  settings_unique (settings d) →
  select_user d uid ≠ [] →
  last_write uid k us = Some v →
  ∃ s, filter (conflicts uid k) (settings (upsert_all now n d us)) = [s]
       ∧ setting_value s = v.
Proof.
  intros Hq Hu H.
  destruct (upsert_all_last now uid k v us n d Hu H) as [Hne Hv].
  pose proof (upsert_all_unique now us n d Hq uid k) as Hlen.
  destruct (filter _ _) as [|s [|s' rows]]; [done| |simpl in Hlen; lia].
  exists s. split; [done|]. apply Hv, list_elem_of_singleton. done.
Qed.

(** An old row keeps its id, owner, key and updater; a new row has no
    updater. *)
Lemma upsert_db_updated_by now d id u s :
  s ∈ settings (upsert_db now d id u) →
  (∃ old, old ∈ settings d ∧ same_but_value old s) ∨ settings_updated_by s = None.
Proof.
  unfold upsert_db.
  destruct (upsert_setting _ _ _ _ _ _) as [|[d' row]] eqn:E.
  - intros Hs. left. by exists s.
  - intros Hs. destruct (upsert_setting_rows _ _ _ _ _ _ _ _ _ E Hs)
      as [?|[(old & ? & ? & ->)|[_ ->]]].
    + left. by exists s.
    + left. by exists old.
    + by right.
Qed.

Lemma upsert_all_updated_by now us : ∀ n d s,
  s ∈ settings (upsert_all now n d us) →
  (∃ old, old ∈ settings d ∧ same_but_value old s) ∨ settings_updated_by s = None.
Proof.
  induction us as [|u us IH]; intros n d s Hs; simpl in *.
  - left. by exists s.
  - destruct (IH _ _ _ Hs) as [(mid & Hmid & H1)|?]; [|by right].
    destruct (upsert_db_updated_by _ _ _ _ _ Hmid) as [(old & Hold & H2)|H2].
    + left. exists old. split; [done|]. unfold same_but_value in *.
      destruct H1 as (-> & -> & -> & ->). done.
    + right. destruct H1 as (_ & _ & _ & ->). done.
Qed.

End UpsertRuns.

(** ** The resolvers: what a run of upserts does to the world *)

Section Runs.
Import Store.

Lemma user_exists_ext d d' u :
  users d' = users d → user_exists d' u ↔ user_exists d u.
Proof. intros H. unfold user_exists. by rewrite (select_user_ext d d'). Qed.

Lemma accepted_ext d d' us : users d' = users d → accepted d' us = accepted d us.
Proof.
  intros H. unfold accepted. apply list_filter_iff. intros u.
  by apply user_exists_ext.
Qed.

Lemma refused_ext d d' us : users d' = users d → refused d' us = refused d us.
Proof.
  intros H. unfold refused. apply list_filter_iff. intros u.
  by rewrite (user_exists_ext d d' u).
Qed.

Lemma after_upserts_cons w u us :
  after_upserts
    (mkWorld (upsert_db (clock w) (db w) (uuid (uuids w)) u) (cache w) (clock w)
             (S (uuids w)) (queries w ++ [upsert_statement u])) us
  = after_upserts w (u :: us).
Proof.
  unfold after_upserts. simpl. f_equal; [lia|]. by rewrite <- app_assoc.
Qed.

(** One upsert: the statement goes out and an id is drawn in any case;
    the store decides between a row and an exception. *)
Lemma Kysely_upsert_run u w :
  Kysely.upsert (userId u) (bulk_key u) (bulk_value u) w =
  let w' := mkWorld (upsert_db (clock w) (db w) (uuid (uuids w)) u) (cache w)
                    (clock w) (S (uuids w)) (queries w ++ [upsert_statement u]) in
  match upsert_setting (db w) (uuid (uuids w)) (userId u) (bulk_key u)
                       (bulk_value u) (clock w) with
  | inl e => (Threw (QueryFailed e), w')
  | inr (_, row) => (Returned row, w')
  end.
Proof.
  unfold Kysely.upsert, randomUUID, query_upsert, upsert_db. run.
  destruct (upsert_setting _ _ _ _ _ _) as [e|[d row]]; done.
Qed.

Lemma Pg_upsert_run u w :
  Pg.upsert (userId u) (bulk_key u) (bulk_value u) w =
  Kysely.upsert (userId u) (bulk_key u) (bulk_value u) w.
Proof. done. Qed.

End Runs.

Section BulkLoop.
Import Store.

Lemma after_upserts_nil w : after_upserts w [] = w.
Proof.
  destruct w. unfold after_upserts. simpl. f_equal; [lia|apply app_nil_r].
Qed.

Lemma upsert_setting_exists d id u now :
  user_exists d u →
  ∃ d' row, upsert_setting d id (userId u) (bulk_key u) (bulk_value u) now
            = inr (d', row).
Proof. apply upsert_setting_user. Qed.

Lemma upsert_setting_missing d id u now :
  ¬ user_exists d u →
  upsert_setting d id (userId u) (bulk_key u) (bulk_value u) now
  = inl ForeignKeyViolation.
Proof.
  intros H. apply upsert_setting_no_user.
  destruct (select_user d (userId u)) eqn:E; [done|].
  exfalso. apply H. unfold user_exists. by rewrite E.
Qed.

(** One turn of the loop of the Kysely variant: exactly one of the two
    local variables moves. *)
Lemma Kysely_bulk_step u failed count w :
  try_catch
    (Kysely.upsert (userId u) (bulk_key u) (bulk_value u);;
     mret (failed, S count))
    (mret (failed ++ [userId u], count)) w
  = (Returned (if decide (user_exists (db w) u)
               then (failed, S count) else (failed ++ [userId u], count)),
     mkWorld (upsert_db (clock w) (db w) (uuid (uuids w)) u) (cache w) (clock w)
             (S (uuids w)) (queries w ++ [upsert_statement u])).
Proof.
  run. rewrite Kysely_upsert_run. simpl.
  destruct (decide (user_exists (db w) u)) as [H|H].
  - destruct (upsert_setting_exists (db w) (uuid (uuids w)) u (clock w) H)
      as (d' & row & ->). done.
  - by rewrite upsert_setting_missing.
Qed.

Lemma Kysely_bulk_loop us : ∀ failed count w,
  Kysely.bulkUpdateSettings_loop us failed count w
  = (Returned (failed ++ map userId (refused (db w) us),
               count + length (accepted (db w) us)),
     after_upserts w us).
Proof.
  induction us as [|u us IH]; intros failed count w.
  - simpl. run. by rewrite app_nil_r, Nat.add_0_r, after_upserts_nil.
  - simpl. unfold mbind at 1, M_bind at 1. rewrite Kysely_bulk_step.
    rewrite IH, after_upserts_cons. simpl db.
    rewrite (accepted_ext (db w)), (refused_ext (db w)) by apply upsert_db_frame.
    unfold accepted, refused. rewrite !filter_cons.
    destruct (decide (user_exists (db w) u)) as [H|H]; simpl.
    + rewrite decide_False by tauto. by rewrite Nat.add_succ_r.
    + rewrite decide_True by done. simpl. by rewrite <- app_assoc.
Qed.

Lemma Pg_bulk_step u failed count w :
  try_catch
    (Pg.upsert (userId u) (bulk_key u) (bulk_value u);;
     Pg.cache_delete (Pg.user_key (userId u));;
     mret (failed, S count))
    (mret (failed ++ [userId u], count)) w
  = (Returned (if decide (user_exists (db w) u)
               then (failed, S count) else (failed ++ [userId u], count)),
     mkWorld (upsert_db (clock w) (db w) (uuid (uuids w)) u)
             (if decide (user_exists (db w) u)
              then delete (Pg.user_key (userId u)) (cache w) else cache w)
             (clock w) (S (uuids w)) (queries w ++ [upsert_statement u])).
Proof.
  run. rewrite Pg_upsert_run, Kysely_upsert_run. simpl.
  destruct (decide (user_exists (db w) u)) as [H|H].
  - destruct (upsert_setting_exists (db w) (uuid (uuids w)) u (clock w) H)
      as (d' & row & ->). done.
  - by rewrite upsert_setting_missing.
Qed.

Lemma Pg_bulk_loop us : ∀ failed count w,
  Pg.bulkUpdateSettings_loop us failed count w
  = (Returned (failed ++ map userId (refused (db w) us),
               count + length (accepted (db w) us)),
     set_cache (invalidated (cache w) (accepted (db w) us)) (after_upserts w us)).
Proof.
  induction us as [|u us IH]; intros failed count w.
  - simpl. run. rewrite app_nil_r, Nat.add_0_r, after_upserts_nil. by destruct w.
  - simpl. unfold mbind at 1, M_bind at 1. rewrite Pg_bulk_step.
    rewrite IH. simpl db. simpl cache.
    rewrite (accepted_ext (db w)), (refused_ext (db w)) by apply upsert_db_frame.
    unfold accepted, refused. rewrite !filter_cons.
    destruct (decide (user_exists (db w) u)) as [H|H]; simpl.
    + rewrite decide_False by tauto. rewrite Nat.add_succ_r. f_equal.
      unfold set_cache, after_upserts. simpl. f_equal; [lia|by rewrite <- app_assoc].
    + rewrite decide_True by done. simpl. f_equal; [by rewrite <- app_assoc|].
      unfold set_cache, after_upserts. simpl. f_equal; [lia|by rewrite <- app_assoc].
Qed.

End BulkLoop.

(** ** Bulk update *)

Section Bulk.
Import Store.

Lemma last_write_elem_of u us :
  u ∈ us → is_Some (last_write (userId u) (bulk_key u) us).
Proof.
  induction us as [|u' us IH]; [by intros ?%elem_of_nil|].
  intros [->|H]%elem_of_cons; simpl.
  - destruct (last_write _ _ us); [done|]. by rewrite decide_True.
  - destruct (IH H) as [v ->]. done.
Qed.

Lemma accepted_refused_length d us :
  length (accepted d us) + length (refused d us) = length us.
Proof.
  unfold accepted, refused. induction us as [|u us IH]; [done|].
  rewrite !filter_cons. destruct (decide (user_exists d u)).
  - rewrite decide_False by tauto. simpl. lia.
  - rewrite decide_True by done. simpl. lia.
Qed.

Lemma accepted_cons d u us :
  accepted d (u :: us)
  = if decide (user_exists d u) then u :: accepted d us else accepted d us.
Proof. unfold accepted. by rewrite filter_cons. Qed.

Lemma refused_cons d u us :
  refused d (u :: us)
  = if decide (user_exists d u) then refused d us else u :: refused d us.
Proof.
  unfold refused. rewrite filter_cons.
  destruct (decide (user_exists d u)).
  - by rewrite decide_False by tauto.
  - by rewrite decide_True.
Qed.

Lemma Kysely_bulk_outcome w us : bulk_outcome Kysely.bulkUpdateSettings w us.
Proof.
  unfold bulk_outcome, Kysely.bulkUpdateSettings.
  unfold mbind, M_bind. rewrite Kysely_bulk_loop. done.
Qed.

Lemma Pg_bulk_outcome w us : bulk_outcome Pg.bulkUpdateSettings w us.
Proof.
  unfold bulk_outcome, Pg.bulkUpdateSettings.
  unfold mbind, M_bind. rewrite Pg_bulk_loop. done.
Qed.

Lemma upsert_all_persisted now n d us u v :
  u ∈ us → user_exists d u →
  last_write (userId u) (bulk_key u) us = Some v →
  persisted (upsert_all now n d us) (userId u) (bulk_key u) v.
Proof.
  intros Hin Hu Hv.
  destruct (upsert_all_last now _ _ _ us n d Hu Hv) as [Hne Hval].
  destruct (filter _ _) as [|s rows] eqn:E; [done|].
  assert (s ∈ filter (conflicts (userId u) (bulk_key u))
                     (settings (upsert_all now n d us))) as Hs
    by (rewrite E; apply elem_of_cons; by left).
  apply list_elem_of_filter in Hs as [Hc Hs].
  exists s. split; [done|]. split; [done|]. apply Hval, elem_of_cons. by left.
Qed.

End Bulk.

Section BulkClaims.
Import Store.

Lemma scenario_last_write U1 bad :
  let us := [mkBulkSettingInput U1 "a" "1"; mkBulkSettingInput bad "b" "2";
             mkBulkSettingInput U1 "c" "3"] in
  last_write U1 "a" us = Some "1" ∧ last_write U1 "c" us = Some "3".
Proof.
  simpl. split.
  - rewrite (decide_False (P := writes_to U1 "a" (mkBulkSettingInput U1 "c" "3")))
      by (by intros [_ ?]).
    rewrite (decide_False (P := writes_to U1 "a" (mkBulkSettingInput bad "b" "2")))
      by (by intros [_ ?]).
    by rewrite decide_True.
  - by rewrite decide_True.
Qed.

Lemma bulk_outcome_in_both : bulk_in_both (λ bulk, ∀ w us, bulk_outcome bulk w us).
Proof. split; intros w us; [apply Kysely_bulk_outcome|apply Pg_bulk_outcome]. Qed.

Lemma bulk_in_both_impl (P Q : (list BulkSettingInput → M BulkSettingsPayload) → Prop) :
  (∀ bulk, P bulk → Q bulk) → bulk_in_both P → bulk_in_both Q.
Proof. intros H [? ?]. split; by apply H. Qed.

(** C1.  [bulkUpdateSettings] goes through its entries in input order and
    an upsert the store refuses stops nothing: in both variants, for every
    world and input, one statement per entry is sent, in input order, the
    call returns with the count of the accepted entries and the user ids
    of the refused ones, and every entry whose user exists is persisted
    with the value written last for its (user id, key).  For the input
    [{U1,a,1}, {bad,b,2}, {U1,c,3}] with U1 there and bad not: success is
    false, updatedCount is 2, failedUserIds is [bad], and both settings of
    U1 are in the store. *)
Theorem bulkUpdateSettings_isolates_failures :
  bulk_in_both (λ bulk,
    (∀ w us,
       bulk_outcome bulk w us
       ∧ ∀ u, u ∈ us → user_exists (db w) u →
           ∃ v, last_write (userId u) (bulk_key u) us = Some v
                ∧ persisted (db (bulk us w).2) (userId u) (bulk_key u) v)
    ∧ (∀ w U1 bad,
         select_user (db w) U1 ≠ [] → select_user (db w) bad = [] →
         let us := [mkBulkSettingInput U1 "a" "1"; mkBulkSettingInput bad "b" "2";
                    mkBulkSettingInput U1 "c" "3"] in
         (bulk us w).1 = Returned (mkBulkSettingsPayload false 2 [bad])
         ∧ persisted (db (bulk us w).2) U1 "a" "1"
         ∧ persisted (db (bulk us w).2) U1 "c" "3")).
Proof.
  eapply bulk_in_both_impl; [|apply bulk_outcome_in_both]. cbn beta.
  intros bulk Hout.
  assert (∀ w us u, u ∈ us → user_exists (db w) u →
            ∃ v, last_write (userId u) (bulk_key u) us = Some v
                 ∧ persisted (db (bulk us w).2) (userId u) (bulk_key u) v) as Hper.
  { intros w us u Hin Hu.
    destruct (last_write_elem_of u us Hin) as [v Hv]. exists v. split; [done|].
    destruct (Hout w us) as (_ & _ & ->).
    by apply upsert_all_persisted. }
  split; [by eauto|].
  intros w U1 bad HU1 Hbad us.
  destruct (Hout w us) as (Hret & _ & _).
  split; [|split].
  - rewrite Hret. unfold us.
    assert (user_exists (db w) (mkBulkSettingInput U1 "a" "1")) as Ha by done.
    assert (¬ user_exists (db w) (mkBulkSettingInput bad "b" "2")) as Hb
      by (intros H; by apply H).
    assert (user_exists (db w) (mkBulkSettingInput U1 "c" "3")) as Hc by done.
    rewrite !accepted_cons, !refused_cons.
    repeat destruct (decide (user_exists _ _)); done.
  - destruct (Hper w us (mkBulkSettingInput U1 "a" "1")) as (v & Hv & Hp).
    + apply elem_of_cons. by left.
    + done.
    + unfold us in Hv. simpl userId in Hv. simpl bulk_key in Hv.
      rewrite (proj1 (scenario_last_write U1 bad)) in Hv. by injection Hv as <-.
  - destruct (Hper w us (mkBulkSettingInput U1 "c" "3")) as (v & Hv & Hp).
    + do 2 (apply elem_of_cons; right). apply elem_of_cons. by left.
    + done.
    + unfold us in Hv. simpl userId in Hv. simpl bulk_key in Hv.
      rewrite (proj2 (scenario_last_write U1 bad)) in Hv. by injection Hv as <-.
Qed.

Lemma bulkUpdateSettings_isolates_failures_witness :
  let us := [mkBulkSettingInput "U1" "a" "1"; mkBulkSettingInput "U2" "b" "2";
             mkBulkSettingInput "U1" "c" "3"] in
  (Pg.bulkUpdateSettings us example_world).1
    = Returned (mkBulkSettingsPayload false 2 ["U2"])
  ∧ persisted (db (Pg.bulkUpdateSettings us example_world).2) "U1" "a" "1"
  ∧ persisted (db (Pg.bulkUpdateSettings us example_world).2) "U1" "c" "3".
Proof.
  apply (proj2 (proj2 bulkUpdateSettings_isolates_failures) example_world "U1" "U2").
  - vm_compute. discriminate.
  - vm_compute. reflexivity.
Defined.

(** C9.  In both variants, for every input, updatedCount plus the number of
    entries of failedUserIds is the length of the input: every turn of the
    loop adds one to the count or pushes one user id, never both and never
    neither. *)
Theorem bulkUpdateSettings_count_plus_failed :
  bulk_in_both (λ bulk, ∀ w us, ∃ r,
    (bulk us w).1 = Returned r
    ∧ updatedCount r + length (failedUserIds r) = length us)
  ∧ counts_or_pushes Kysely.bulkUpdateSettings_loop
  ∧ counts_or_pushes Pg.bulkUpdateSettings_loop.
Proof.
  split; [|split].
  - eapply bulk_in_both_impl; [|apply bulk_outcome_in_both]. cbn beta.
    intros bulk Hout w us. destruct (Hout w us) as (Hret & _).
    eexists. split; [exact Hret|]. simpl.
    rewrite length_map. apply accepted_refused_length.
  - intros u us failed count w.
    remember (Kysely.bulkUpdateSettings_loop (u :: us) failed count w) as turn eqn:E.
    simpl in E. unfold mbind at 1, M_bind at 1 in E.
    rewrite Kysely_bulk_step in E. subst turn.
    destruct (decide (user_exists (db w) u)); eexists; [left|right]; done.
  - intros u us failed count w.
    remember (Pg.bulkUpdateSettings_loop (u :: us) failed count w) as turn eqn:E.
    simpl in E. unfold mbind at 1, M_bind at 1 in E.
    rewrite Pg_bulk_step in E. subst turn.
    destruct (decide (user_exists (db w) u)); eexists; [left|right]; done.
Qed.

End BulkClaims.

Section BulkAmended.
Import Store.

Lemma filter_eq_map_userId uid (us : list BulkSettingInput) :
  filter (λ x, x = uid) (map userId us) = map userId (filter (λ u, userId u = uid) us).
Proof.
  induction us as [|u us IH]; [done|]. simpl. rewrite !filter_cons.
  destruct (decide (userId u = uid)); simpl; by rewrite IH.
Qed.

(** C2 as stated does not hold: no user has the id U2, and two entries
    for U2 put the id into failedUserIds twice, in both variants. *)
Lemma bulkUpdateSettings_failed_ids_repeat :
  let us := [mkBulkSettingInput "U2" "a" "1"; mkBulkSettingInput "U2" "b" "2"] in
  let r := mkBulkSettingsPayload false 0 ["U2"; "U2"] in
  select_user example_db "U2" = []
  ∧ (Kysely.bulkUpdateSettings us example_world).1 = Returned r
  ∧ (Pg.bulkUpdateSettings us example_world).1 = Returned r
  ∧ ¬ NoDup (failedUserIds r).
Proof.
  split; [done|]. split; [by vm_compute|]. split; [by vm_compute|].
  intros H. apply NoDup_cons in H as [H _]. apply H, elem_of_cons. by left.
Qed.

(** C2, amended.  In both variants, for every input, failedUserIds holds
    the user id of every refused entry, in input order, once per refused
    entry: a user id is in it as many times as entries of that user were
    refused.  updatedCount is the number of accepted entries. *)
Theorem bulkUpdateSettings_failed_ids_per_entry :
  bulk_in_both (λ bulk, ∀ w us, ∃ r,
    (bulk us w).1 = Returned r
    ∧ failedUserIds r = map userId (refused (db w) us)
    ∧ (∀ uid, length (filter (λ x, x = uid) (failedUserIds r))
              = length (filter (λ u, userId u = uid ∧ ¬ user_exists (db w) u) us))
    ∧ updatedCount r = length (accepted (db w) us)).
Proof.
  eapply bulk_in_both_impl; [|apply bulk_outcome_in_both]. cbn beta.
  intros bulk Hout w us. destruct (Hout w us) as (Hret & _).
  eexists. split; [exact Hret|]. simpl. split; [done|]. split; [|done].
  intros uid. rewrite filter_eq_map_userId, length_map. unfold refused.
  by rewrite list_filter_filter.
Qed.

End BulkAmended.

(** ** Single-user update *)

Section UpdateLoop.
Import Store.

Variable toISOString : Z → string.

Lemma upsert_setting_row d id userId key value now d' row :
  upsert_setting d id userId key value now = inr (d', row) →
  setting_key row = key ∧ setting_value row = value.
Proof.
  unfold upsert_setting. destruct (select_user d userId); [done|].
  destruct (filter _ (settings d)) as [|old olds] eqn:E; intros [= _ <-]; [done|].
  assert (old ∈ filter (conflicts userId key) (settings d)) as H
    by (rewrite E; apply elem_of_cons; by left).
  apply list_elem_of_filter in H as [[_ H] _]. done.
Qed.

Lemma Kysely_update_loop uid settings : ∀ acc w,
  select_user (db w) uid ≠ [] →
  ∃ objs,
    Kysely.updateSettings_loop toISOString uid settings acc w
    = (Returned (acc ++ objs), after_upserts w (for_user uid settings))
    ∧ echoes Kysely.key Kysely.value Kysely.updatedById objs settings.
Proof.
  induction settings as [|s settings IH]; intros acc w Hu.
  - exists []. simpl. run. rewrite app_nil_r, after_upserts_nil. by split.
  - simpl. unfold mbind at 1, M_bind at 1.
    pose (u := mkBulkSettingInput uid (input_key s) (input_value s)).
    change (Kysely.upsert uid (input_key s) (input_value s) w)
      with (Kysely.upsert (userId u) (bulk_key u) (bulk_value u) w).
    rewrite Kysely_upsert_run.
    destruct (upsert_setting_exists (db w) (uuid (uuids w)) u (clock w) Hu)
      as (d' & row & E).
    rewrite E. cbn zeta iota beta.
    destruct (upsert_setting_row _ _ _ _ _ _ _ _ E) as [Hk Hv].
    edestruct IH as (objs & -> & Hobjs & Hnone).
    { simpl db. by rewrite (select_user_ext (db w)) by apply upsert_db_frame. }
    eexists (_ :: objs). rewrite <- app_assoc. simpl app.
    rewrite after_upserts_cons. split; [done|]. split.
    + simpl. by rewrite Hk, Hv, Hobjs.
    + by constructor.
Qed.

Lemma Pg_update_loop uid settings : ∀ acc w,
  select_user (db w) uid ≠ [] →
  ∃ objs,
    Pg.updateSettings_loop uid settings acc w
    = (Returned (acc ++ objs), after_upserts w (for_user uid settings))
    ∧ echoes Pg.key Pg.value Pg.updatedById objs settings.
Proof.
  induction settings as [|s settings IH]; intros acc w Hu.
  - exists []. simpl. run. rewrite app_nil_r, after_upserts_nil. by split.
  - simpl. unfold mbind at 1, M_bind at 1.
    pose (u := mkBulkSettingInput uid (input_key s) (input_value s)).
    change (Pg.upsert uid (input_key s) (input_value s) w)
      with (Kysely.upsert (userId u) (bulk_key u) (bulk_value u) w).
    rewrite Kysely_upsert_run.
    destruct (upsert_setting_exists (db w) (uuid (uuids w)) u (clock w) Hu)
      as (d' & row & E).
    rewrite E. cbn zeta iota beta.
    destruct (upsert_setting_row _ _ _ _ _ _ _ _ E) as [Hk Hv].
    edestruct IH as (objs & -> & Hobjs & Hnone).
    { simpl db. by rewrite (select_user_ext (db w)) by apply upsert_db_frame. }
    eexists (_ :: objs). rewrite <- app_assoc. simpl app.
    rewrite after_upserts_cons. split; [done|]. split.
    + simpl. by rewrite Hk, Hv, Hobjs.
    + by constructor.
Qed.

(** The two ways [updateSettings] ends, in the Kysely variant ... *)
Lemma Kysely_updateSettings_missing uid settings w :
  select_user (db w) uid = [] →
  Kysely.updateSettings toISOString uid settings w
  = (Threw (Error "User not found"), sent (SelectUser uid) w).
Proof.
  intros H. unfold Kysely.updateSettings, Kysely.select_user_first, query_user.
  run. by rewrite H.
Qed.

Lemma Kysely_updateSettings_found uid settings w first rest :
  select_user (db w) uid = first :: rest →
  ∃ objs,
    Kysely.updateSettings toISOString uid settings w
    = (Returned (Kysely.mkSettingsPayload true (Kysely.user_obj toISOString first) objs),
       after_upserts (sent (SelectUser uid) w) (for_user uid settings))
    ∧ echoes Kysely.key Kysely.value Kysely.updatedById objs settings.
Proof.
  intros H. unfold Kysely.updateSettings, Kysely.select_user_first, query_user.
  run. rewrite H. simpl.
  destruct (Kysely_update_loop uid settings [] (sent (SelectUser uid) w))
    as (objs & -> & Hobjs).
  { simpl. by rewrite H. }
  by exists objs.
Qed.

(** ... and in the pg variant, which drops the cache entry of the user at
    the end. *)
Lemma Pg_updateSettings_missing uid settings w :
  select_user (db w) uid = [] →
  Pg.updateSettings uid settings w
  = (Threw (Error "User not found"), sent (SelectUser uid) w).
Proof.
  intros H. unfold Pg.updateSettings, query_user. run. by rewrite H.
Qed.

Lemma Pg_updateSettings_found uid settings w first rest :
  select_user (db w) uid = first :: rest →
  ∃ objs,
    Pg.updateSettings uid settings w
    = (Returned (Pg.mkSettingsPayload true first objs),
       set_cache (delete (Pg.user_key uid) (cache w))
         (after_upserts (sent (SelectUser uid) w) (for_user uid settings)))
    ∧ echoes Pg.key Pg.value Pg.updatedById objs settings.
Proof.
  intros H. unfold Pg.updateSettings, query_user, Pg.cache_delete.
  run. rewrite H. simpl.
  destruct (Pg_update_loop uid settings [] (sent (SelectUser uid) w))
    as (objs & -> & Hobjs).
  { simpl. by rewrite H. }
  by exists objs.
Qed.

End UpdateLoop.

Section UpdateClaims.
Import Store.

Variable toISOString : Z → string.

Lemma last_write_for_user uid k settings :
  last_write uid k (for_user uid settings) = last_value k settings.
Proof.
  unfold last_value. induction settings as [|s settings IH]; [done|].
  simpl. rewrite IH, filter_cons. unfold writes_to. simpl.
  destruct (decide (input_key s = k)) as [Hk|Hk].
  - rewrite decide_True by done. simpl. by rewrite last_cons.
  - rewrite decide_False by tauto. by destruct (last _).
Qed.

(** C3.  When no user has the id, [updateSettings] throws "User not found"
    whatever the settings are, in both variants; the store (and the cache
    of the pg variant) is as before, and the user lookup is the only
    statement sent: no row is written. *)
Theorem updateSettings_missing_user w userId settings :
  select_user (db w) userId = [] →
  let k := Kysely.updateSettings toISOString userId settings w in
  let p := Pg.updateSettings userId settings w in
  (k.1 = Threw (Error "User not found") ∧ db k.2 = db w
   ∧ queries k.2 = queries w ++ [SelectUser userId])
  ∧ (p.1 = Threw (Error "User not found") ∧ db p.2 = db w ∧ cache p.2 = cache w
     ∧ queries p.2 = queries w ++ [SelectUser userId]).
Proof.
  intros H k p. unfold k, p.
  by rewrite Kysely_updateSettings_missing, Pg_updateSettings_missing.
Qed.

(** C8.  For a user that exists, [updateSettings] with no settings returns
    success with an empty list of settings, in both variants; the store
    is as before (the user row with its role and creation date, and the
    settings), and the user lookup is the only statement sent. *)
Theorem updateSettings_empty w u first rest :
  select_user (db w) u = first :: rest →
  let k := Kysely.updateSettings toISOString u [] w in
  let p := Pg.updateSettings u [] w in
  (k.1 = Returned (Kysely.mkSettingsPayload true
                     (Kysely.mkUserObj first (toISOString (users_created_at first))) [])
   ∧ db k.2 = db w ∧ queries k.2 = queries w ++ [SelectUser u])
  ∧ (p.1 = Returned (Pg.mkSettingsPayload true first [])
     ∧ db p.2 = db w ∧ queries p.2 = queries w ++ [SelectUser u]).
Proof.
  intros H k p. unfold k, p.
  unfold Kysely.updateSettings, Pg.updateSettings, Kysely.select_user_first,
    query_user, Pg.cache_delete.
  run. rewrite H. simpl. done.
Qed.

(** C6.  For a user that exists and a settings table where (user id, key)
    is unique, after [updateSettings(U, list)] with at least one entry
    under the key k there is exactly one row for (U, k), it holds the value
    of the last entry under k in the list, and (user id, key) is still
    unique; the call returns success.  In both variants. *)
Theorem updateSettings_last_write_wins w U k v entries :
  settings_unique (settings (db w)) →
  select_user (db w) U ≠ [] →
  last_value k entries = Some v →
  let kw := Kysely.updateSettings toISOString U entries w in
  let pw := Pg.updateSettings U entries w in
  ((∃ r, kw.1 = Returned r ∧ Kysely.success r = true)
   ∧ (∃ s, filter (conflicts U k) (settings (db kw.2)) = [s] ∧ setting_value s = v)
   ∧ settings_unique (settings (db kw.2)))
  ∧ ((∃ r, pw.1 = Returned r ∧ Pg.success r = true)
     ∧ (∃ s, filter (conflicts U k) (settings (db pw.2)) = [s] ∧ setting_value s = v)
     ∧ settings_unique (settings (db pw.2))).
Proof.
  intros Hq Hu Hv kw pw. rewrite <- (last_write_for_user U) in Hv.
  destruct (select_user (db w) U) as [|first rest] eqn:E; [done|].
  destruct (Kysely_updateSettings_found toISOString U entries w first rest E)
    as (kobjs & Hk & _).
  destruct (Pg_updateSettings_found U entries w first rest E) as (pobjs & Hp & _).
  unfold kw, pw. rewrite Hk, Hp. simpl.
  assert (select_user (db w) U ≠ []) as Hu' by by rewrite E.
  repeat split; eauto using upsert_all_last_unique, upsert_all_unique.
Qed.

End UpdateClaims.

Lemma updateSettings_missing_user_witness :
  let k := Kysely.updateSettings pretty "U2" [mkSettingInput "theme" "light"]
                                 example_world in
  let p := Pg.updateSettings "U2" [mkSettingInput "theme" "light"] example_world in
  (k.1 = Threw (Error "User not found") ∧ db k.2 = example_db
   ∧ queries k.2 = [SelectUser "U2"])
  ∧ (p.1 = Threw (Error "User not found") ∧ db p.2 = example_db ∧ cache p.2 = ∅
     ∧ queries p.2 = [SelectUser "U2"]).
Proof.
  apply (updateSettings_missing_user pretty example_world "U2"
           [mkSettingInput "theme" "light"]).
  reflexivity.
Defined.

Lemma updateSettings_empty_witness :
  let k := Kysely.updateSettings pretty "U1" [] example_world in
  let p := Pg.updateSettings "U1" [] example_world in
  (k.1 = Returned (Kysely.mkSettingsPayload true
                     (Kysely.mkUserObj alice (pretty 1700000000000%Z)) [])
   ∧ db k.2 = example_db ∧ queries k.2 = [SelectUser "U1"])
  ∧ (p.1 = Returned (Pg.mkSettingsPayload true alice [])
     ∧ db p.2 = example_db ∧ queries p.2 = [SelectUser "U1"]).
Proof.
  apply (updateSettings_empty pretty example_world "U1" alice []).
  reflexivity.
Defined.

Lemma updateSettings_last_write_wins_witness :
  let entries := [mkSettingInput "theme" "light"; mkSettingInput "lang" "en";
                  mkSettingInput "theme" "solar"] in
  let kw := Kysely.updateSettings pretty "U1" entries example_world in
  let pw := Pg.updateSettings "U1" entries example_world in
  ((∃ r, kw.1 = Returned r ∧ Kysely.success r = true)
   ∧ (∃ s, filter (Store.conflicts "U1" "theme") (settings (db kw.2)) = [s]
           ∧ setting_value s = "solar")
   ∧ Store.settings_unique (settings (db kw.2)))
  ∧ ((∃ r, pw.1 = Returned r ∧ Pg.success r = true)
     ∧ (∃ s, filter (Store.conflicts "U1" "theme") (settings (db pw.2)) = [s]
             ∧ setting_value s = "solar")
     ∧ Store.settings_unique (settings (db pw.2))).
Proof.
  apply (updateSettings_last_write_wins pretty example_world "U1" "theme" "solar").
  - intros u k. apply (Nat.le_trans _ _ _ (length_filter _ _)). simpl. lia.
  - vm_compute. discriminate.
  - vm_compute. reflexivity.
Defined.

(** ** Deleting a user *)

Section Delete.
Import Store.

Lemma filter_eq_filter_ne {A} (f : A → string) id (l : list A) :
  filter (λ x, f x = id) (filter (λ x, f x ≠ id) l) = [].
Proof.
  induction l as [|x l IH]; [done|]. rewrite filter_cons.
  destruct (decide (f x ≠ id)); [|done].
  rewrite filter_cons. by rewrite decide_False.
Qed.

Lemma filter_ne_none {A} (f : A → string) id (l : list A) :
  filter (λ x, f x = id) l = [] → filter (λ x, f x ≠ id) l = l.
Proof.
  induction l as [|x l IH]; [done|]. rewrite !filter_cons.
  destruct (decide (f x = id)); [done|]. intros H.
  rewrite decide_True by done. f_equal. by apply IH.
Qed.

(** With the children gone the store lets the user row go. *)
Lemma delete_user_after_children d id :
  let d' := delete_settings (delete_activity d id) id in
  delete_user d' id
  = inr (mkDatabase (filter (λ u, users_id u ≠ id) (users d))
                    (settings d') (activity_log d')).
Proof.
  simpl. unfold delete_user.
  assert (¬ referenced (delete_settings (delete_activity d id) id) id) as Hn.
  { unfold referenced, select_settings. simpl.
    rewrite !(filter_eq_filter_ne _ id). tauto. }
  rewrite (decide_False _ _ Hn).
  destruct (select_user _ id) eqn:E; [|done].
  unfold select_user in E. simpl in E.
  rewrite (filter_ne_none users_id id _ E). done.
Qed.

(** The Kysely variant does what the schema says of [deleteUser]: activity
    entries, settings, user row, in this order, and success whether or not
    the user was there. *)
Lemma Kysely_deleteUser_children_first w id :
  let out := Kysely.deleteUser id w in
  out.1 = Returned (mkDeletePayload true id)
  ∧ queries out.2 = queries w ++ [DeleteActivity id; DeleteSettings id; DeleteUser id]
  ∧ db out.2 = mkDatabase (filter (λ u, users_id u ≠ id) (users (db w)))
                          (filter (λ s, settings_user_id s ≠ id) (settings (db w)))
                          (filter (λ a, activity_user_id a ≠ id) (activity_log (db w))).
Proof.
  unfold Kysely.deleteUser, query_delete_activity, query_delete_settings,
    query_delete_user.
  run. rewrite delete_user_after_children. simpl.
  split; [done|]. split; [|done]. by rewrite <- !app_assoc.
Qed.

(** The pg variant never sends a statement on the activity entries, and
    leaves them where they are. *)
Lemma Pg_deleteUser_activity_stays w id :
  let out := Pg.deleteUser id w in
  activity_log (db out.2) = activity_log (db w)
  ∧ queries out.2 = queries w ++ [DeleteSettings id; DeleteUser id].
Proof.
  unfold Pg.deleteUser, query_delete_settings, query_delete_user, Pg.cache_delete.
  run. destruct (delete_user _ id) as [e|d] eqn:E; simpl.
  - split; [done|]. by rewrite <- !app_assoc.
  - split; [|by rewrite <- !app_assoc].
    unfold delete_user in E. destruct (select_user _ id); [by injection E as <-|].
    destruct (decide _); [done|]. by injection E as <-.
Qed.

(** C5, where the pg variant departs from it.  [alice] owns one activity
    entry and one setting.  The Kysely variant deletes the activity
    entry, the setting and the user row, in this order, and returns
    success.  The pg variant deletes the settings and goes for the user
    row: the activity entry is still there, the store refuses, and the
    resolver throws instead of returning success, with the settings
    gone and the user still there. *)
Theorem deleteUser_pg_leaves_activity :
  (let out := Kysely.deleteUser "U1" example_world in
   out.1 = Returned (mkDeletePayload true "U1")
   ∧ queries out.2 = [DeleteActivity "U1"; DeleteSettings "U1"; DeleteUser "U1"]
   ∧ db out.2 = mkDatabase [carol] [] [])
  ∧ (let out := Pg.deleteUser "U1" example_world in
     out.1 = Threw (QueryFailed ForeignKeyViolation)
     ∧ queries out.2 = [DeleteSettings "U1"; DeleteUser "U1"]
     ∧ db out.2 = mkDatabase [alice; carol] [] [signed_in]).
Proof. split; by vm_compute. Qed.

End Delete.

(** ** The result cache and [user(id)] (pg variant) *)

Section CacheClaims.
Import Store.

Lemma getCache_fresh key w : Pg.getCache key w = (Returned (fresh w key), w).
Proof.
  unfold Pg.getCache, Pg.cache_get, Date_now, fresh. run.
  destruct (cache w !! key) as [entry|]; [|done]. by destruct (decide _).
Qed.

Lemma setCache_insert key row w :
  Pg.setCache key row w
  = (Returned (), set_cache (<[key := mkEntry row (clock w)]> (cache w)) w).
Proof. done. Qed.

Variable where_id : string → Database → DbError + list UserRow.

(** A miss goes to the store: rows fill the cache, no rows and a failed
    statement leave it as it is.  A hit does not go to the store. *)
Lemma Query_user_miss id w first rest :
  fresh w (Pg.user_key id) = None →
  where_id id (db w) = inr (first :: rest) →
  Pg.Query_user where_id id w
  = (Returned (Some first),
     set_cache (<[Pg.user_key id := mkEntry first (clock w)]> (cache w))
               (sent (SelectUserSpliced id) w)).
Proof.
  intros Hm Hs. unfold Pg.Query_user. unfold mbind at 1, M_bind at 1.
  rewrite getCache_fresh, Hm. unfold query_user_spliced, Pg.setCache. run.
  by rewrite Hs.
Qed.

Lemma Query_user_no_rows id w :
  fresh w (Pg.user_key id) = None →
  where_id id (db w) = inr [] →
  Pg.Query_user where_id id w = (Returned None, sent (SelectUserSpliced id) w).
Proof.
  intros Hm Hs. unfold Pg.Query_user. unfold mbind at 1, M_bind at 1.
  rewrite getCache_fresh, Hm. unfold query_user_spliced. run. by rewrite Hs.
Qed.

Lemma Query_user_rejected id w e :
  fresh w (Pg.user_key id) = None →
  where_id id (db w) = inl e →
  Pg.Query_user where_id id w
  = (Threw (QueryFailed e), sent (SelectUserSpliced id) w).
Proof.
  intros Hm Hs. unfold Pg.Query_user. unfold mbind at 1, M_bind at 1.
  rewrite getCache_fresh, Hm. unfold query_user_spliced. run. by rewrite Hs.
Qed.

Lemma Query_user_hit id w cached :
  fresh w (Pg.user_key id) = Some cached →
  Pg.Query_user where_id id w = (Returned (Some cached), w).
Proof.
  intros Hh. unfold Pg.Query_user. unfold mbind at 1, M_bind at 1.
  by rewrite getCache_fresh, Hh.
Qed.

(** The lookup of [users] for one id, on a miss: the statement has the id
    as [$1]. *)
Lemma Query_users_one_miss id w :
  fresh w (Pg.user_key id) = None →
  (Pg.Query_users [id] w).1 = Returned [head (select_user (db w) id)].
Proof.
  intros Hm.
  assert (Pg.users_until_await id w
          = (Returned (id, inr (select_user (db w) id)), sent (SelectUser id) w)) as H.
  { unfold Pg.users_until_await. unfold mbind at 1, M_bind at 1.
    by rewrite getCache_fresh, Hm. }
  unfold Pg.Query_users. simpl. unfold mbind at 1 2, M_bind at 1 2. rewrite H.
  unfold Pg.users_after_await, Pg.setCache. run.
  by destruct (select_user (db w) id).
Qed.

(** C4, where [user(id)] departs from it.  The id goes into the text of
    the statement, not into [$1] as in [users] and [me].  On a cache miss,
    when the store cannot run the text (as for the id [U1], which it reads
    as a column), [user(id)] throws and caches nothing, call after call,
    where [users([id])] returns the row.  The claim holds where the store
    reads the text as the id: the first call sends the statement and
    returns the row of the store, a call less than the TTL of five minutes
    later is served from the cache and sends nothing, and a call at the
    TTL or later sends the statement again.  [getCache] hands out an
    entry while its age is below the TTL and leaves it in the map. *)
Theorem user_id_is_spliced w id :
  (Pg.getCache (Pg.user_key id) w).1 = Returned None →
  (∀ e, where_id id (db w) = inl e →
     Pg.Query_user where_id id w
       = (Threw (QueryFailed e), sent (SelectUserSpliced id) w)
     ∧ Pg.Query_user where_id id (Pg.Query_user where_id id w).2
       = (Threw (QueryFailed e),
          sent (SelectUserSpliced id) (sent (SelectUserSpliced id) w))
     ∧ (Pg.Query_users [id] w).1 = Returned [head (select_user (db w) id)])
  ∧ (∀ first rest,
       reads_as_id where_id id (db w) → select_user (db w) id = first :: rest →
       let w1 := (Pg.Query_user where_id id w).2 in
       (Pg.Query_user where_id id w).1 = Returned (head (select_user (db w) id))
       ∧ queries w1 = queries w ++ [SelectUserSpliced id]
       ∧ (∀ dt, (dt < Pg.CACHE_TTL)%Z →
            Pg.Query_user where_id id (elapse dt w1)
            = (Returned (head (select_user (db w) id)), elapse dt w1))
       ∧ (∀ dt, (Pg.CACHE_TTL ≤ dt)%Z →
            let w2 := (Pg.Query_user where_id id (elapse dt w1)).2 in
            (Pg.Query_user where_id id (elapse dt w1)).1
              = Returned (head (select_user (db w) id))
            ∧ queries w2 = queries w1 ++ [SelectUserSpliced id]))
  ∧ Pg.CACHE_TTL = 300000%Z
  ∧ (∀ key w' entry, cache w' !! key = Some entry →
       Pg.getCache key w'
       = (Returned (if decide (clock w' - timestamp entry < Pg.CACHE_TTL)%Z
                    then Some (data entry) else None), w')).
Proof.
  intros Hm. rewrite getCache_fresh in Hm. injection Hm as Hm.
  split; [|split; [|split; [done|]]].
  - intros e He. rewrite (Query_user_rejected id w e Hm He).
    split; [done|]. split; [by apply Query_user_rejected|].
    by apply Query_users_one_miss.
  - intros first rest Hr Hs. unfold reads_as_id in Hr. rewrite Hs in Hr.
    rewrite (Query_user_miss id w first rest Hm Hr), Hs. simpl.
    split; [done|]. split; [done|]. split.
    + intros dt Hdt. apply Query_user_hit. unfold fresh. simpl.
      rewrite lookup_insert_eq. simpl. rewrite decide_True by lia. done.
    + intros dt Hdt. erewrite Query_user_miss; [done| |done].
      unfold fresh. simpl. rewrite lookup_insert_eq. simpl.
      by rewrite decide_False by lia.
  - intros key w' entry He. rewrite getCache_fresh. unfold fresh. by rewrite He.
Qed.

End CacheClaims.

Lemma user_id_is_spliced_witness :
  (Pg.Query_user example_where_id "U1" example_world
     = (Threw (QueryFailed (Store.SqlError "column does not exist: U1")),
        sent (SelectUserSpliced "U1") example_world)
   ∧ (Pg.Query_users ["U1"] example_world).1 = Returned [Some alice])
  ∧ (let w1 := (Pg.Query_user example_where_id "1" example_world_integer_ids).2 in
     (Pg.Query_user example_where_id "1" example_world_integer_ids).1
       = Returned (Some alice_1)
     ∧ queries w1 = [SelectUserSpliced "1"]
     ∧ Pg.Query_user example_where_id "1" (elapse 299999 w1)
       = (Returned (Some alice_1), elapse 299999 w1)
     ∧ queries (Pg.Query_user example_where_id "1" (elapse 300000 w1)).2
       = [SelectUserSpliced "1"; SelectUserSpliced "1"]).
Proof.
  split.
  - destruct (user_id_is_spliced example_where_id example_world "U1") as (H & _).
    + reflexivity.
    + destruct (H (Store.SqlError "column does not exist: U1")) as (H1 & _ & H3).
      * reflexivity.
      * split; [exact H1|exact H3].
  - destruct (user_id_is_spliced example_where_id example_world_integer_ids "1")
      as (_ & H & _).
    + reflexivity.
    + destruct (H alice_1 []) as (H1 & H2 & H3 & H4).
      * reflexivity.
      * reflexivity.
      * split; [exact H1|]. split; [exact H2|]. split; [apply H3; reflexivity|].
        apply (H4 300000%Z). discriminate.
Defined.

(** ** [users(ids)] *)

Section Users.
Import Store.

Variable toISOString : Z → string.

Lemma sent_all_nil w : sent_all [] w = w.
Proof. destruct w. unfold sent_all. simpl. by rewrite app_nil_r. Qed.

Lemma sent_all_cons q qs w : sent_all qs (sent q w) = sent_all (q :: qs) w.
Proof. unfold sent_all, sent. simpl. by rewrite <- app_assoc. Qed.

Lemma Kysely_lookups ids : ∀ w,
  mapM Kysely.select_user_first ids w
  = (Returned (map (λ id, head (select_user (db w) id)) ids),
     sent_all (map SelectUser ids) w).
Proof.
  induction ids as [|id ids IH]; intros w.
  - simpl. run. by rewrite sent_all_nil.
  - simpl. unfold Kysely.select_user_first at 1, query_user. run.
    rewrite IH. simpl. by rewrite sent_all_cons.
Qed.

Lemma Kysely_Query_user_run id w :
  Kysely.Query_user toISOString id w
  = (Returned (Kysely.user_or_null toISOString (head (select_user (db w) id))),
     sent (SelectUser id) w).
Proof. done. Qed.

Lemma Kysely_Query_users_run ids w :
  Kysely.Query_users toISOString ids w
  = (Returned (map (λ id, Kysely.user_or_null toISOString
                            (head (select_user (db w) id))) ids),
     sent_all (map SelectUser ids) w).
Proof.
  unfold Kysely.Query_users. unfold mbind, M_bind. rewrite Kysely_lookups.
  unfold mret, M_ret. by rewrite map_map.
Qed.

(** The callbacks of the pg variant up to their [await]: a statement for
    every id that misses the cache, in input order; the cache is read as it
    was when [users] was called. *)
Lemma Pg_users_until_await_step id w :
  Pg.users_until_await id w
  = (Returned (pending w id),
     sent_all (if decide (fresh w (Pg.user_key id) = None)
               then [SelectUser id] else []) w).
Proof.
  unfold Pg.users_until_await. unfold mbind at 1, M_bind at 1.
  rewrite getCache_fresh. unfold pending.
  destruct (fresh w (Pg.user_key id)) as [cached|].
  - rewrite decide_False by done. run. by rewrite sent_all_nil.
  - rewrite decide_True by done. done.
Qed.

Lemma Pg_users_until_await ids : ∀ w,
  mapM Pg.users_until_await ids w
  = (Returned (map (pending w) ids),
     sent_all (map SelectUser
                 (filter (λ id, fresh w (Pg.user_key id) = None) ids)) w).
Proof.
  induction ids as [|id ids IH]; intros w.
  - simpl. run. by rewrite sent_all_nil.
  - simpl. unfold mbind at 1, M_bind at 1.
    rewrite Pg_users_until_await_step. unfold mbind, M_bind. rewrite IH.
    unfold mret, M_ret. rewrite filter_cons.
    destruct (decide (fresh w (Pg.user_key id) = None)).
    + f_equal. unfold sent_all. simpl. by rewrite <- app_assoc.
    + f_equal. unfold sent_all. simpl. by rewrite <- app_assoc.
Qed.

(** After the [await]: only the cache changes. *)
Lemma Pg_users_after_await ps : ∀ w, ∃ c,
  mapM Pg.users_after_await ps w = (Returned (map settled ps), set_cache c w).
Proof.
  induction ps as [|[id [cached|[|first rest]]] ps IH]; intros w.
  - exists (cache w). simpl. run. by destruct w.
  - destruct (IH w) as [c Hc]. exists c. simpl. run. by rewrite Hc.
  - destruct (IH w) as [c Hc]. exists c. simpl. run. by rewrite Hc.
  - edestruct IH as [c Hc]. exists c. simpl. unfold Pg.setCache. run.
    rewrite Hc. done.
Qed.

Lemma Pg_Query_users_run ids w : ∃ c,
  Pg.Query_users ids w
  = (Returned (map (λ id, settled (pending w id)) ids),
     set_cache c (sent_all (map SelectUser
        (filter (λ id, fresh w (Pg.user_key id) = None) ids)) w)).
Proof.
  unfold Pg.Query_users. unfold mbind, M_bind. rewrite Pg_users_until_await.
  edestruct Pg_users_after_await as [c ->]. exists c. by rewrite map_map.
Qed.

(** Where the store reads the spliced id as the id, the single-user
    resolution of the pg variant returns what a callback of [users]
    settles on. *)
Lemma Pg_Query_user_settled where_id id w :
  reads_as_id where_id id (db w) →
  (Pg.Query_user where_id id w).1 = Returned (settled (pending w id)).
Proof.
  intros Hr. unfold Pg.Query_user. unfold mbind at 1, M_bind at 1.
  rewrite getCache_fresh. unfold settled, pending. simpl.
  destruct (fresh w (Pg.user_key id)); [done|].
  unfold query_user_spliced. run. rewrite Hr. by destruct (select_user (db w) id).
Qed.

(** With a coherent cache it is the row of the store, hit or miss. *)
Lemma settled_coherent w id :
  cache_coherent w → settled (pending w id) = head (select_user (db w) id).
Proof.
  intros Hc. unfold settled, pending, fresh. simpl.
  destruct (cache w !! Pg.user_key id) as [entry|] eqn:E; [|done].
  destruct (decide _); [|done]. symmetry. by apply Hc.
Qed.

(** *** The cache agrees with the store

    The resolvers of the pg variant keep [cache_coherent]: they fill the
    cache from the store, and drop the entry of a user they delete. *)

Lemma user_key_inj id id' : Pg.user_key id = Pg.user_key id' → id = id'.
Proof. unfold Pg.user_key. simpl. by intros [= ?]. Qed.








Lemma invalidated_lookup us : ∀ c key entry,
  invalidated c us !! key = Some entry → c !! key = Some entry.
Proof.
  induction us as [|u us IH]; intros c key entry; [done|]. simpl.
  intros He%IH. by apply lookup_delete_Some in He as [_ He].
Qed.




(** C7 as stated does not hold of the pg variant, which serves what the
    cache holds before it asks the store.  With a fresh entry for U3 in the
    cache and no user U3 in the store, [users([U1, U3])] has carol, not
    null, at the position of U3.  Such an entry can come from [user(id)]
    itself: in a store with integer ids, [user("2 OR 1=1")] caches the
    first user under that id, and [users(["2 OR 1=1"])] returns her. *)
Lemma users_serves_cached_row :
  (select_user (db example_world_stale) "U3" = []
   ∧ (Pg.Query_users ["U1"; "U3"] example_world_stale).1
     = Returned [Some alice; Some carol])
  ∧ (let w := (Pg.Query_user example_where_id "2 OR 1=1"
                 example_world_integer_ids).2 in
     select_user (db w) "2 OR 1=1" = []
     ∧ (Pg.Query_users ["2 OR 1=1"] w).1 = Returned [Some alice_1]).
Proof. split; split; by vm_compute. Qed.

(** C7, amended.  In both variants [users(ids)] returns a list as long as
    [ids], in the order of [ids].  In the Kysely variant the element at a
    position is the user the store has for the id at that position, or
    null.  In the pg variant it is the row the cache holds for that id
    when [getCache] finds one, and the user the store has for the id, or
    null, when it finds none.  An element depends on its own id only.
    With A and C in the store and B not, [users([A, B, C])] is [userA,
    null, userC], in the pg variant when the cache holds nothing for the
    three ids or agrees with the store. *)
Theorem users_keeps_positions w ids :
  (∃ l, (Kysely.Query_users toISOString ids w).1 = Returned l
        ∧ length l = length ids
        ∧ ∀ i id, ids !! i = Some id →
            ∃ r, (Kysely.Query_user toISOString id w).1 = Returned r
                 ∧ l !! i = Some r
                 ∧ r = Kysely.user_or_null toISOString (head (select_user (db w) id)))
  ∧ (∃ l, (Pg.Query_users ids w).1 = Returned l
          ∧ length l = length ids
          ∧ ∀ i id, ids !! i = Some id →
              ∃ cached, (Pg.getCache (Pg.user_key id) w).1 = Returned cached
                        ∧ l !! i = Some match cached with
                                        | Some row => Some row
                                        | None => head (select_user (db w) id)
                                        end)
  ∧ (∀ A B C userA userC,
       select_user (db w) A = [userA] → select_user (db w) B = [] →
       select_user (db w) C = [userC] →
       (Kysely.Query_users toISOString [A; B; C] w).1
         = Returned [Some (Kysely.user_obj toISOString userA); None;
                     Some (Kysely.user_obj toISOString userC)]
       ∧ ((∀ id, id ∈ [A; B; C] →
             (Pg.getCache (Pg.user_key id) w).1 = Returned None) →
          (Pg.Query_users [A; B; C] w).1 = Returned [Some userA; None; Some userC])
       ∧ (cache_coherent w →
          (Pg.Query_users [A; B; C] w).1 = Returned [Some userA; None; Some userC])).
Proof.
  split; [|split].
  - rewrite Kysely_Query_users_run. eexists. split; [done|].
    split; [by rewrite length_map|]. intros i id Hi.
    eexists. split; [by rewrite Kysely_Query_user_run|]. split; [|done].
    by rewrite list_lookup_fmap, Hi.
  - destruct (Pg_Query_users_run ids w) as [c ->]. eexists. split; [done|].
    split; [by rewrite length_map|]. intros i id Hi.
    exists (fresh w (Pg.user_key id)). split; [by rewrite getCache_fresh|].
    rewrite list_lookup_fmap, Hi. simpl. unfold settled, pending. simpl.
    by destruct (fresh w (Pg.user_key id)).
  - intros A B C userA userC HA HB HC. split; [|split].
    + rewrite Kysely_Query_users_run. simpl. by rewrite HA, HB, HC.
    + intros Hm. destruct (Pg_Query_users_run [A; B; C] w) as [c ->]. simpl.
      assert (∀ id, id ∈ [A; B; C] → fresh w (Pg.user_key id) = None) as Hf.
      { intros id Hid. specialize (Hm id Hid). rewrite getCache_fresh in Hm.
        by injection Hm. }
      unfold settled, pending. simpl.
      rewrite (Hf A), (Hf B), (Hf C), HA, HB, HC; [done|..];
        repeat (apply elem_of_cons; (by left) || right).
    + intros Hc. destruct (Pg_Query_users_run [A; B; C] w) as [c ->]. simpl.
      rewrite !settled_coherent by done. by rewrite HA, HB, HC.
Qed.

End Users.

Lemma users_keeps_positions_witness :
  (Kysely.Query_users pretty ["U1"; "U2"; "U3"] example_world).1
    = Returned [Some (Kysely.user_obj pretty alice); None;
                Some (Kysely.user_obj pretty carol)]
  ∧ (Pg.Query_users ["U1"; "U2"; "U3"] example_world).1
    = Returned [Some alice; None; Some carol].
Proof.
  destruct (users_keeps_positions pretty example_world []) as (_ & _ & H).
  destruct (H "U1" "U2" "U3" alice carol) as (HK & HP & _); [reflexivity..|].
  split; [exact HK|]. apply HP. intros id Hid. reflexivity.
Defined.

(** ** Who updated a setting *)

Section UpdatedBy.
Import Store.

Variable toISOString : Z → string.

(** Either variant leaves the store a run of upserts leaves. *)
Lemma mutate_upserts mutate w m :
  mutate = (Kysely_mutate toISOString) ∨ mutate = Pg_mutate →
  ∃ now n us, db (mutate w m) = upsert_all now n (db w) us.
Proof.
  intros Hm. destruct m as [uid entries|us].
  - destruct (select_user (db w) uid) as [|first rest] eqn:E.
    + exists 0%Z, 0, []. destruct Hm as [-> | ->]; simpl.
      * by rewrite Kysely_updateSettings_missing.
      * by rewrite Pg_updateSettings_missing.
    + exists (clock w), (uuids w), (for_user uid entries).
      destruct Hm as [-> | ->]; simpl.
      * by destruct (Kysely_updateSettings_found toISOString uid entries w _ _ E)
          as (objs & -> & _).
      * by destruct (Pg_updateSettings_found uid entries w _ _ E)
          as (objs & -> & _).
  - exists (clock w), (uuids w), us. destruct Hm as [-> | ->]; simpl.
    + by destruct (Kysely_bulk_outcome w us) as (_ & _ & ->).
    + by destruct (Pg_bulk_outcome w us) as (_ & _ & ->).
Qed.

Lemma mutate_updated_by mutate w m s :
  mutate = (Kysely_mutate toISOString) ∨ mutate = Pg_mutate →
  s ∈ settings (db (mutate w m)) →
  (∃ old, old ∈ settings (db w) ∧ same_but_value old s)
  ∨ settings_updated_by s = None.
Proof.
  intros Hm Hs. destruct (mutate_upserts mutate w m Hm) as (now & n & us & E).
  rewrite E in Hs. by eapply upsert_all_updated_by.
Qed.

Lemma mutate_no_updaters mutate ms : ∀ w,
  mutate = (Kysely_mutate toISOString) ∨ mutate = Pg_mutate →
  no_updaters (db w) → no_updaters (db (foldl mutate w ms)).
Proof.
  induction ms as [|m ms IH]; intros w Hm Hw; [done|]. simpl.
  apply IH; [done|]. intros s Hs.
  destruct (mutate_updated_by mutate w m s Hm Hs) as [(old & Hold & H)|H]; [|done].
  destruct H as (_ & _ & _ & ->). by apply Hw.
Qed.

Lemma Kysely_updatedBy_null o w :
  Kysely.updatedById o = None →
  Kysely.Setting_updatedBy toISOString o w = (Returned None, w).
Proof. unfold Kysely.Setting_updatedBy. by intros ->. Qed.

Lemma Pg_updatedBy_null o w :
  Pg.updatedById o = None → Pg.Setting_updatedBy o w = (Returned None, w).
Proof. unfold Pg.Setting_updatedBy. by intros ->. Qed.

(** C10.  Neither mutation records an updater, in either variant.  (1) An
    upsert that finds no row under (user id, key) adds one row, with a
    null updater; one that finds rows changes their value and date and
    nothing else.  (2) Every setting in the store after a mutation has a
    null updater or is a row that was there before, with the id, owner, key
    and updater it had.  (3) So from a store without updaters, after any
    run of the two mutations, [Setting.updatedBy] on a setting of
    [User.settings], as on a setting of the payload of [updateSettings],
    returns null without a statement. *)
Theorem mutations_record_no_updater :
  (∀ d id userId key value now d' row,
     upsert_setting d id userId key value now = inr (d', row) →
     match filter (conflicts userId key) (settings d) with
     | [] => settings d' = settings d ++ [mkSetting id userId key value now None]
     | _ :: _ =>
         settings d' =
         map (λ s, if decide (conflicts userId key s)
                   then mkSetting (settings_id s) (settings_user_id s) (setting_key s)
                                  value now (settings_updated_by s)
                   else s) (settings d)
     end)
  ∧ (∀ mutate, mutate = (Kysely_mutate toISOString) ∨ mutate = Pg_mutate →
     (∀ w m s, s ∈ settings (db (mutate w m)) →
        (∃ old, old ∈ settings (db w) ∧ same_but_value old s)
        ∨ settings_updated_by s = None)
     ∧ (∀ w ms, no_updaters (db w) → no_updaters (db (foldl mutate w ms))))
  ∧ (∀ w ms uid, no_updaters (db w) →
       (∃ l, (Kysely.User_settings toISOString uid (foldl (Kysely_mutate toISOString) w ms)).1
               = Returned l
             ∧ ∀ o w', o ∈ l →
                 Kysely.Setting_updatedBy toISOString o w' = (Returned None, w'))
       ∧ (∃ l, (Pg.User_settings uid (foldl Pg_mutate w ms)).1 = Returned l
               ∧ ∀ o w', o ∈ l → Pg.Setting_updatedBy o w' = (Returned None, w')))
  ∧ (∀ w uid entries,
       (∀ r o w', (Kysely.updateSettings toISOString uid entries w).1 = Returned r →
                  o ∈ Kysely.payload_settings r →
                  Kysely.Setting_updatedBy toISOString o w' = (Returned None, w'))
       ∧ (∀ r o w', (Pg.updateSettings uid entries w).1 = Returned r →
                    o ∈ Pg.payload_settings r →
                    Pg.Setting_updatedBy o w' = (Returned None, w'))).
Proof.
  split; [|split; [|split]].
  - intros d id userId key value now d' row. unfold upsert_setting.
    destruct (select_user d userId); [done|].
    destruct (filter _ (settings d)); by intros [= <- _].
  - intros mutate Hm. split.
    + intros w m s. by apply mutate_updated_by.
    + intros w ms. by apply mutate_no_updaters.
  - intros w ms uid Hw. split.
    + eexists. split; [done|].
      intros o w' (s & -> & Hs)%list_elem_of_fmap.
      apply Kysely_updatedBy_null. simpl.
      apply list_elem_of_filter in Hs as [_ Hs].
      eapply mutate_no_updaters; [by left|done|done].
    + eexists. split; [done|].
      intros o w' (s & -> & Hs)%list_elem_of_fmap.
      apply Pg_updatedBy_null. simpl.
      apply list_elem_of_filter in Hs as [_ Hs].
      eapply (mutate_no_updaters Pg_mutate); [by right|done|done].
  - intros w uid entries. split.
    + intros r o w' Hr Ho. apply Kysely_updatedBy_null.
      destruct (select_user (db w) uid) as [|first rest] eqn:E.
      * by rewrite Kysely_updateSettings_missing in Hr.
      * destruct (Kysely_updateSettings_found toISOString uid entries w _ _ E)
          as (objs & Hrun & _ & Hnone).
        rewrite Hrun in Hr. injection Hr as <-. simpl in Ho.
        rewrite Forall_forall in Hnone. by apply Hnone.
    + intros r o w' Hr Ho. apply Pg_updatedBy_null.
      destruct (select_user (db w) uid) as [|first rest] eqn:E.
      * by rewrite Pg_updateSettings_missing in Hr.
      * destruct (Pg_updateSettings_found uid entries w _ _ E)
          as (objs & Hrun & _ & Hnone).
        rewrite Hrun in Hr. injection Hr as <-. simpl in Ho.
        rewrite Forall_forall in Hnone. by apply Hnone.
Qed.

End UpdatedBy.

Lemma mutations_record_no_updater_witness :
  let ms := [UpdateSettings "U1" [mkSettingInput "theme" "light";
                                  mkSettingInput "lang" "en"];
             BulkUpdateSettings [mkBulkSettingInput "U3" "lang" "fr";
                                 mkBulkSettingInput "U2" "lang" "de"]] in
  ∃ l, (Pg.User_settings "U1"
          (foldl Pg_mutate example_world_no_updaters ms)).1 = Returned l
       ∧ ∀ o w', o ∈ l → Pg.Setting_updatedBy o w' = (Returned None, w').
Proof.
  refine (proj2 (proj1 (proj2 (proj2 (mutations_record_no_updater pretty)))
                   example_world_no_updaters _ "U1" _)).
  intros s Hs. apply list_elem_of_singleton in Hs. rewrite Hs. reflexivity.
Defined.

(** * Further properties of the resolvers *)

(** ** Deleting a user, continued *)

Section DeleteMore.
Import Store.

Variable toISOString : Z → string.

Lemma filter_ne_idemp {A} (f : A → string) id (l : list A) :
  filter (λ x, f x ≠ id) (filter (λ x, f x ≠ id) l) = filter (λ x, f x ≠ id) l.
Proof. rewrite list_filter_filter. apply list_filter_iff. tauto. Qed.

Lemma Kysely_deleteUser_run w id :
  Kysely.deleteUser id w
  = (Returned (mkDeletePayload true id),
     mkWorld (mkDatabase (filter (λ u, users_id u ≠ id) (users (db w)))
                (filter (λ s, settings_user_id s ≠ id) (settings (db w)))
                (filter (λ a, activity_user_id a ≠ id) (activity_log (db w))))
             (cache w) (clock w) (uuids w)
             (queries w ++ [DeleteActivity id; DeleteSettings id; DeleteUser id])).
Proof.
  unfold Kysely.deleteUser, query_delete_activity, query_delete_settings,
    query_delete_user.
  run. rewrite delete_user_after_children.
  unfold set_db, sent. simpl. by rewrite <- !app_assoc.
Qed.

(** X1.  In the Kysely variant [deleteUser] returns success for every id and
    every store, present user or not, after the three deletes in the order
    activity entries, settings, user row; it removes the rows of that id
    from the three tables and keeps all other rows, in their order. *)
Theorem Kysely_deleteUser_removes_exactly w id :
  let out := Kysely.deleteUser id w in
  out.1 = Returned (mkDeletePayload true id)
  ∧ queries out.2 = queries w ++ [DeleteActivity id; DeleteSettings id; DeleteUser id]
  ∧ users (db out.2) = filter (λ u, users_id u ≠ id) (users (db w))
  ∧ settings (db out.2) = filter (λ s, settings_user_id s ≠ id) (settings (db w))
  ∧ activity_log (db out.2)
    = filter (λ a, activity_user_id a ≠ id) (activity_log (db w)).
Proof. by rewrite Kysely_deleteUser_run. Qed.

(** X2.  Deleting twice is deleting once: the second [deleteUser] of the Kysely
    variant returns success again and leaves the store as the first left
    it. *)
Theorem Kysely_deleteUser_idempotent w id :
  let once := Kysely.deleteUser id w in
  let twice := Kysely.deleteUser id once.2 in
  twice.1 = Returned (mkDeletePayload true id) ∧ db twice.2 = db once.2.
Proof.
  simpl. rewrite !Kysely_deleteUser_run. simpl.
  split; [done|]. by rewrite !filter_ne_idemp.
Qed.

(** X3.  After [deleteUser(id)] of the Kysely variant the user is gone for the
    other resolvers: [user(id)] and [me] return null, [User.settings] is
    empty, [updateSettings(id, ...)] throws "User not found", and a bulk
    entry for the id is refused. *)
Theorem Kysely_after_deleteUser w id entries key value :
  let w' := (Kysely.deleteUser id w).2 in
  (Kysely.Query_user toISOString id w').1 = Returned None
  ∧ (Kysely.Query_me toISOString (Some id) w').1 = Returned None
  ∧ (Kysely.User_settings toISOString id w').1 = Returned []
  ∧ (Kysely.updateSettings toISOString id entries w').1
    = Threw (Error "User not found")
  ∧ (Kysely.bulkUpdateSettings [mkBulkSettingInput id key value] w').1
    = Returned (mkBulkSettingsPayload false 0 [id]).
Proof.
  intros w'.
  assert (select_user (db w') id = []) as Hu.
  { unfold w'. rewrite Kysely_deleteUser_run. unfold select_user. simpl.
    apply (filter_eq_filter_ne users_id). }
  assert (select_settings (db w') id = []) as Hs.
  { unfold w'. rewrite Kysely_deleteUser_run. unfold select_settings. simpl.
    apply (filter_eq_filter_ne settings_user_id). }
  split; [|split; [|split; [|split]]].
  - rewrite Kysely_Query_user_run. simpl. by rewrite Hu.
  - unfold Kysely.Query_me, Kysely.select_user_first, query_user.
    destruct (bool_decide (id = "")); [done|]. run. by rewrite Hu.
  - unfold Kysely.User_settings, query_settings. run. by rewrite Hs.
  - by rewrite Kysely_updateSettings_missing.
  - destruct (Kysely_bulk_outcome w' [mkBulkSettingInput id key value]) as (-> & _).
    rewrite accepted_cons, refused_cons.
    destruct (decide (user_exists _ _)) as [H|H]; [|done]. exfalso. by apply H.
Qed.

(** X4.  In the pg variant [deleteUser] never sends a statement on the activity
    entries and never changes them.  The settings of the id are deleted in
    any case.  The call throws exactly when the user exists and still owns
    an activity entry; the user row and the cache are then as before, so
    that the settings are lost and the user is not deleted. *)
Theorem Pg_deleteUser_partial w id :
  let out := Pg.deleteUser id w in
  activity_log (db out.2) = activity_log (db w)
  ∧ queries out.2 = queries w ++ [DeleteSettings id; DeleteUser id]
  ∧ settings (db out.2) = filter (λ s, settings_user_id s ≠ id) (settings (db w))
  ∧ (out.1 = Threw (QueryFailed ForeignKeyViolation)
     ↔ select_user (db w) id ≠ []
       ∧ filter (λ a, activity_user_id a = id) (activity_log (db w)) ≠ [])
  ∧ (out.1 = Threw (QueryFailed ForeignKeyViolation) →
     users (db out.2) = users (db w) ∧ cache out.2 = cache w)
  ∧ (out.1 ≠ Threw (QueryFailed ForeignKeyViolation) →
     out.1 = Returned (mkDeletePayload true id)).
Proof.
  unfold Pg.deleteUser, query_delete_settings, query_delete_user, Pg.cache_delete.
  run. unfold delete_user, select_user. simpl.
  destruct (filter (λ u, users_id u = id) (users (db w))) as [|first rest] eqn:Hu.
  { simpl. rewrite <- !app_assoc. repeat split; try done. by intros [? _]. }
  assert (referenced (delete_settings (db w) id) id
          ↔ filter (λ a, activity_user_id a = id) (activity_log (db w)) ≠ []) as Href.
  { unfold referenced, select_settings. simpl.
    rewrite (filter_eq_filter_ne settings_user_id). tauto. }
  destruct (decide (referenced (delete_settings (db w) id) id)) as [Hr|Hr]; simpl.
  - rewrite <- !app_assoc. split; [done|]. split; [done|]. split; [done|].
    split; [|split; [done|]].
    + split; [|done]. intros _. split; [done|]. by apply Href.
    + intros H. by exfalso.
  - rewrite <- !app_assoc. split; [done|]. split; [done|]. split; [done|].
    split; [|split; done].
    split; [done|]. intros [_ Ha]. exfalso. by apply Hr, Href.
Qed.

(** X5.  When the id owns no activity entry, [deleteUser] of the pg variant
    returns success; the user row, the settings and the cache entry of the
    id are gone, so that [getCache] finds nothing for the id and the next
    [users([id])] asks the store and returns null. *)
Theorem Pg_deleteUser_without_activity w id :
  filter (λ a, activity_user_id a = id) (activity_log (db w)) = [] →
  let out := Pg.deleteUser id w in
  out.1 = Returned (mkDeletePayload true id)
  ∧ users (db out.2) = filter (λ u, users_id u ≠ id) (users (db w))
  ∧ settings (db out.2) = filter (λ s, settings_user_id s ≠ id) (settings (db w))
  ∧ cache out.2 = delete (Pg.user_key id) (cache w)
  ∧ Pg.getCache (Pg.user_key id) out.2 = (Returned None, out.2)
  ∧ (Pg.Query_users [id] out.2).1 = Returned [None]
  ∧ queries (Pg.Query_users [id] out.2).2 = queries out.2 ++ [SelectUser id].
Proof.
  intros Ha out.
  assert (out.1 = Returned (mkDeletePayload true id)
          ∧ users (db out.2) = filter (λ u, users_id u ≠ id) (users (db w))
          ∧ settings (db out.2)
            = filter (λ s, settings_user_id s ≠ id) (settings (db w))
          ∧ cache out.2 = delete (Pg.user_key id) (cache w)) as (H1 & H2 & H3 & H4).
  { unfold out, Pg.deleteUser, query_delete_settings, query_delete_user,
      Pg.cache_delete.
    run. unfold delete_user, select_user. simpl.
    destruct (filter (λ u, users_id u = id) (users (db w))) as [|first rest] eqn:Hu.
    { simpl. repeat split; try done. by rewrite (filter_ne_none users_id). }
    rewrite decide_False; [done|].
    unfold referenced, select_settings. simpl.
    rewrite (filter_eq_filter_ne settings_user_id), Ha. tauto. }
  assert (fresh out.2 (Pg.user_key id) = None) as Hm
    by (unfold fresh; by rewrite H4, lookup_delete_eq).
  assert (select_user (db out.2) id = []) as Hs
    by (unfold select_user; rewrite H2; apply (filter_eq_filter_ne users_id)).
  split; [done|]. split; [done|]. split; [done|]. split; [done|].
  split; [by rewrite getCache_fresh, Hm|].
  destruct (Pg_Query_users_run [id] out.2) as [c ->]. simpl.
  unfold settled, pending. simpl. rewrite Hm, Hs. split; [done|].
  rewrite filter_cons, decide_True by done. done.
Qed.

End DeleteMore.

Lemma Pg_deleteUser_without_activity_witness :
  let out := Pg.deleteUser "U3" example_world in
  out.1 = Returned (mkDeletePayload true "U3")
  ∧ users (db out.2) = [alice]
  ∧ settings (db out.2) = [theme_dark]
  ∧ cache out.2 = delete (Pg.user_key "U3") ∅
  ∧ Pg.getCache (Pg.user_key "U3") out.2 = (Returned None, out.2)
  ∧ (Pg.Query_users ["U3"] out.2).1 = Returned [None]
  ∧ queries (Pg.Query_users ["U3"] out.2).2 = queries out.2 ++ [SelectUser "U3"].
Proof.
  apply (Pg_deleteUser_without_activity example_world "U3"). reflexivity.
Defined.

Lemma Pg_deleteUser_partial_witness :
  let out := Pg.deleteUser "U1" example_world in
  out.1 = Threw (QueryFailed Store.ForeignKeyViolation)
  ∧ users (db out.2) = [alice; carol] ∧ cache out.2 = ∅
  ∧ settings (db out.2) = [] ∧ activity_log (db out.2) = [signed_in].
Proof.
  destruct (Pg_deleteUser_partial example_world "U1")
    as (Ha & _ & Hs & Hthrow & Hkept & _).
  assert ((Pg.deleteUser "U1" example_world).1
          = Threw (QueryFailed Store.ForeignKeyViolation)) as Ht.
  { apply Hthrow. split; vm_compute; discriminate. }
  destruct (Hkept Ht) as [Hu Hc].
  split; [exact Ht|]. split; [exact Hu|]. split; [exact Hc|].
  split; [exact Hs|exact Ha].
Defined.

(** ** The result cache, continued *)

Section CacheMore.
Import Store.

Lemma fresh_elapse_insert key row t c w dt :
  fresh (elapse dt (set_cache (<[key := mkEntry row t]> c) w)) key
  = if decide (clock w + dt - t < Pg.CACHE_TTL)%Z then Some row else None.
Proof. unfold fresh. simpl. by rewrite lookup_insert_eq. Qed.

(** X6.  [setCache] then [getCache]: the data comes back while less than the TTL
    has passed and no longer from then on; a later [setCache] replaces
    the entry; [cache.delete] removes it; other keys are not concerned. *)
Theorem cache_set_then_get key row w :
  let w1 := (Pg.setCache key row w).2 in
  (∀ dt, (dt < Pg.CACHE_TTL)%Z →
     Pg.getCache key (elapse dt w1) = (Returned (Some row), elapse dt w1))
  ∧ (∀ dt, (Pg.CACHE_TTL ≤ dt)%Z →
       Pg.getCache key (elapse dt w1) = (Returned None, elapse dt w1))
  ∧ (∀ row' dt dt', (dt' < Pg.CACHE_TTL)%Z →
       let w2 := (Pg.setCache key row' (elapse dt w1)).2 in
       (Pg.getCache key (elapse dt' w2)).1 = Returned (Some row'))
  ∧ (∀ dt, (Pg.getCache key (Pg.cache_delete key (elapse dt w1)).2).1
           = Returned None)
  ∧ (∀ key' dt, key' ≠ key →
       (Pg.getCache key' (elapse dt w1)).1 = (Pg.getCache key' (elapse dt w)).1).
Proof.
  intros w1. unfold w1. rewrite setCache_insert. simpl.
  split; [|split; [|split; [|split]]].
  - intros dt Hdt. rewrite getCache_fresh, fresh_elapse_insert.
    by rewrite decide_True by lia.
  - intros dt Hdt. rewrite getCache_fresh, fresh_elapse_insert.
    by rewrite decide_False by lia.
  - intros row' dt dt' Hdt. rewrite getCache_fresh.
    unfold fresh. simpl. rewrite lookup_insert_eq. simpl.
    by rewrite decide_True by lia.
  - intros dt. rewrite getCache_fresh. unfold fresh. simpl.
    by rewrite lookup_delete_eq.
  - intros key' dt Hne. rewrite !getCache_fresh. unfold fresh. simpl.
    by rewrite lookup_insert_ne.
Qed.

Variable where_id : string → Database → DbError + list UserRow.

(** X7.  [user(id)] of the pg variant does not cache that a user is missing:
    on a miss, when its statement returns no row, it returns null and
    leaves the cache as it is, so the next call sends the statement
    again. *)
Theorem Pg_Query_user_missing_not_cached w id :
  where_id id (db w) = inr [] →
  (Pg.getCache (Pg.user_key id) w).1 = Returned None →
  Pg.Query_user where_id id w = (Returned None, sent (SelectUserSpliced id) w)
  ∧ Pg.Query_user where_id id (Pg.Query_user where_id id w).2
    = (Returned None, sent (SelectUserSpliced id) (sent (SelectUserSpliced id) w)).
Proof.
  intros Hs Hm. rewrite getCache_fresh in Hm. injection Hm as Hm.
  rewrite (Query_user_no_rows where_id id w Hm Hs). split; [done|].
  by apply Query_user_no_rows.
Qed.

(** X8.  A hit does not renew the entry: an entry filled by a miss, from the
    rows its statement returned, serves the calls of the next five minutes
    and is stale five minutes after the miss, however recently it was
    read. *)
Theorem Pg_Query_user_no_sliding_expiry w id first rest dt1 dt2 :
  where_id id (db w) = inr (first :: rest) →
  (Pg.getCache (Pg.user_key id) w).1 = Returned None →
  (dt1 < Pg.CACHE_TTL)%Z → (Pg.CACHE_TTL ≤ dt1 + dt2)%Z →
  let w1 := (Pg.Query_user where_id id w).2 in
  let read := Pg.Query_user where_id id (elapse dt1 w1) in
  let late := Pg.Query_user where_id id (elapse dt2 read.2) in
  read = (Returned (Some first), elapse dt1 w1)
  ∧ late.1 = Returned (Some first)
  ∧ queries late.2 = queries w ++ [SelectUserSpliced id; SelectUserSpliced id].
Proof.
  intros Hs Hm H1 H2. rewrite getCache_fresh in Hm. injection Hm as Hm. simpl.
  rewrite (Query_user_miss where_id id w first rest Hm Hs). simpl.
  rewrite (Query_user_hit where_id id _ first)
    by (rewrite fresh_elapse_insert; simpl; by rewrite decide_True by lia).
  split; [done|]. simpl.
  erewrite Query_user_miss; [|..|done].
  - simpl. split; [done|]. by rewrite <- app_assoc.
  - unfold fresh. simpl. rewrite lookup_insert_eq. simpl.
    by rewrite decide_False by lia.
Qed.


End CacheMore.

Lemma cache_set_then_get_witness :
  let w1 := (Pg.setCache "user:U1" alice example_world).2 in
  Pg.getCache "user:U1" (elapse 299999 w1) = (Returned (Some alice), elapse 299999 w1)
  ∧ Pg.getCache "user:U1" (elapse 300000 w1) = (Returned None, elapse 300000 w1).
Proof.
  destruct (cache_set_then_get "user:U1" alice example_world) as (Hin & Hout & _).
  split; [apply Hin; reflexivity|apply Hout; discriminate].
Defined.

Lemma Pg_Query_user_missing_not_cached_witness :
  Pg.Query_user example_where_id "2" example_world_integer_ids
    = (Returned None, sent (SelectUserSpliced "2") example_world_integer_ids)
  ∧ Pg.Query_user example_where_id "2"
      (Pg.Query_user example_where_id "2" example_world_integer_ids).2
    = (Returned None,
       sent (SelectUserSpliced "2")
            (sent (SelectUserSpliced "2") example_world_integer_ids)).
Proof.
  apply (Pg_Query_user_missing_not_cached example_where_id
           example_world_integer_ids "2"); reflexivity.
Defined.

Lemma Pg_Query_user_no_sliding_expiry_witness :
  let w1 := (Pg.Query_user example_where_id "1" example_world_integer_ids).2 in
  let read := Pg.Query_user example_where_id "1" (elapse 200000 w1) in
  let late := Pg.Query_user example_where_id "1" (elapse 150000 read.2) in
  read = (Returned (Some alice_1), elapse 200000 w1)
  ∧ late.1 = Returned (Some alice_1)
  ∧ queries late.2 = [SelectUserSpliced "1"; SelectUserSpliced "1"].
Proof.
  apply (Pg_Query_user_no_sliding_expiry example_where_id example_world_integer_ids
           "1" alice_1 [] 200000 150000).
  - reflexivity.
  - reflexivity.
  - reflexivity.
  - discriminate.
Defined.


(** ** The two mutations, continued *)

Section MutationsMore.
Import Store.

Variable toISOString : Z → string.

Lemma last_write_other_user uid' uid k entries :
  uid' ≠ uid → last_write uid' k (for_user uid entries) = None.
Proof.
  intros Hne. induction entries as [|s entries IH]; [done|]. simpl.
  rewrite IH. rewrite decide_False; [done|]. intros [H _]. simpl in H. by apply Hne.
Qed.

Lemma filter_map_setting {O} (f : SettingRow → O) (key : O → string) k
    (rows : list SettingRow) :
  (∀ s, key (f s) = setting_key s) →
  filter (λ o, key o = k) (map f rows) = map f (filter (λ s, setting_key s = k) rows).
Proof.
  intros Hf. induction rows as [|s rows IH]; [done|]. simpl.
  rewrite !filter_cons, Hf.
  destruct (decide (setting_key s = k)); simpl; by rewrite IH.
Qed.

Lemma select_settings_key d uid k :
  filter (λ s, setting_key s = k) (select_settings d uid)
  = filter (conflicts uid k) (settings d).
Proof.
  unfold select_settings. rewrite list_filter_filter. apply list_filter_iff.
  intros s. unfold conflicts. tauto.
Qed.

(** X10.  For a user that exists, [updateSettings] sends the user lookup and then
    one upsert per entry, in input order, and returns success with the row
    of the user and one setting per entry, carrying the keys and values of
    the entries in input order (repeated keys included).  In both
    variants. *)
Theorem updateSettings_returns_entries_in_order w U first rest entries :
  select_user (db w) U = first :: rest →
  (∃ r, (Kysely.updateSettings toISOString U entries w).1 = Returned r
        ∧ Kysely.success r = true
        ∧ Kysely.user r = Kysely.user_obj toISOString first
        ∧ map (λ o, (Kysely.key o, Kysely.value o)) (Kysely.payload_settings r)
          = map (λ s, (input_key s, input_value s)) entries)
  ∧ (∃ r, (Pg.updateSettings U entries w).1 = Returned r
          ∧ Pg.success r = true ∧ Pg.user r = first
          ∧ map (λ o, (Pg.key o, Pg.value o)) (Pg.payload_settings r)
            = map (λ s, (input_key s, input_value s)) entries)
  ∧ queries (Kysely.updateSettings toISOString U entries w).2
    = queries w ++ SelectUser U :: map (λ s, UpsertSetting U (input_key s) (input_value s))
                                       entries
  ∧ queries (Pg.updateSettings U entries w).2
    = queries (Kysely.updateSettings toISOString U entries w).2.
Proof.
  intros Hs.
  destruct (Kysely_updateSettings_found toISOString U entries w first rest Hs)
    as (kobjs & -> & Hk & _).
  destruct (Pg_updateSettings_found U entries w first rest Hs) as (pobjs & -> & Hp & _).
  simpl. split; [by eexists|]. split; [by eexists|].
  split; [|done]. rewrite <- app_assoc. simpl. do 2 f_equal.
  unfold for_user. by rewrite map_map.
Qed.

(** X11.  The mutations write settings and nothing else, and only under the
    (user id, key) pairs of their entries: users and activity entries are
    as before, and so are the rows of every pair that no entry names.  For
    [updateSettings] these are all pairs of other users and all keys
    missing from the list.  In both variants. *)
Theorem mutations_write_only_their_keys w :
  (∀ mutate, mutate = Kysely_mutate toISOString ∨ mutate = Pg_mutate →
   ∀ m, users (db (mutate w m)) = users (db w)
        ∧ activity_log (db (mutate w m)) = activity_log (db w))
  ∧ (∀ us uid k, last_write uid k us = None →
       filter (conflicts uid k) (settings (db (Kysely.bulkUpdateSettings us w).2))
       = filter (conflicts uid k) (settings (db w))
       ∧ filter (conflicts uid k) (settings (db (Pg.bulkUpdateSettings us w).2))
         = filter (conflicts uid k) (settings (db w)))
  ∧ (∀ U entries uid k, uid ≠ U ∨ last_value k entries = None →
       filter (conflicts uid k)
              (settings (db (Kysely.updateSettings toISOString U entries w).2))
       = filter (conflicts uid k) (settings (db w))
       ∧ filter (conflicts uid k) (settings (db (Pg.updateSettings U entries w).2))
         = filter (conflicts uid k) (settings (db w))).
Proof.
  split; [|split].
  - intros mutate Hm m.
    destruct (mutate_upserts toISOString mutate w m Hm) as (now & n & us & ->).
    apply upsert_all_frame.
  - intros us uid k Hl.
    destruct (Kysely_bulk_outcome w us) as (_ & _ & ->).
    destruct (Pg_bulk_outcome w us) as (_ & _ & ->).
    split; by apply upsert_all_untouched.
  - intros U entries uid k Hk.
    assert (last_write uid k (for_user U entries) = None) as Hl.
    { destruct Hk as [Hne|Hk]; [by apply last_write_other_user|].
      destruct (decide (uid = U)) as [->|Hne]; [|by apply last_write_other_user].
      by rewrite last_write_for_user. }
    destruct (select_user (db w) U) as [|first rest] eqn:Hs.
    + by rewrite Kysely_updateSettings_missing, Pg_updateSettings_missing.
    + destruct (Kysely_updateSettings_found toISOString U entries w first rest Hs)
        as (kobjs & -> & _).
      destruct (Pg_updateSettings_found U entries w first rest Hs) as (pobjs & -> & _).
      simpl. split; by apply upsert_all_untouched.
Qed.

(** X12.  For one user that exists, [bulkUpdateSettings] with the entries of
    an [updateSettings] call writes what that call writes, in either
    variant: afterwards every (user id, key) holds the same values with
    the same updaters, and users and activity entries are the same.  The
    mutations differ in what they return, not in what they write. *)
Theorem bulk_writes_what_updateSettings_writes w U entries :
  select_user (db w) U ≠ [] →
  let kb := db (Kysely.bulkUpdateSettings (for_user U entries) w).2 in
  let ku := db (Kysely.updateSettings toISOString U entries w).2 in
  let pb := db (Pg.bulkUpdateSettings (for_user U entries) w).2 in
  let pu := db (Pg.updateSettings U entries w).2 in
  (users kb = users ku ∧ activity_log kb = activity_log ku
   ∧ ∀ uid k, map (λ s, (setting_value s, settings_updated_by s))
                  (filter (conflicts uid k) (settings kb))
              = map (λ s, (setting_value s, settings_updated_by s))
                    (filter (conflicts uid k) (settings ku)))
  ∧ (users pb = users pu ∧ activity_log pb = activity_log pu
     ∧ ∀ uid k, map (λ s, (setting_value s, settings_updated_by s))
                    (filter (conflicts uid k) (settings pb))
                = map (λ s, (setting_value s, settings_updated_by s))
                      (filter (conflicts uid k) (settings pu))).
Proof.
  intros Hu. destruct (select_user (db w) U) as [|first rest] eqn:Hs; [done|].
  destruct (Kysely_updateSettings_found toISOString U entries w first rest Hs)
    as (kobjs & -> & _).
  destruct (Pg_updateSettings_found U entries w first rest Hs) as (pobjs & -> & _).
  destruct (Kysely_bulk_outcome w (for_user U entries)) as (_ & _ & ->).
  destruct (Pg_bulk_outcome w (for_user U entries)) as (_ & _ & ->).
  done.
Qed.

(** X13.  [bulkUpdateSettings] reports success exactly when the user of every
    entry exists; with no entries it reports success, count 0 and no
    failed id, and sends nothing.  In both variants. *)
Theorem bulk_success_iff_all_users_exist :
  bulk_in_both (λ bulk,
    (∀ w us, ∃ r, (bulk us w).1 = Returned r
       ∧ (bulk_success r = true ↔ ∀ u, u ∈ us → select_user (db w) (userId u) ≠ [])
       ∧ (bulk_success r = true ↔ failedUserIds r = [])
       ∧ (bulk_success r = true → updatedCount r = length us))
    ∧ (∀ w, (bulk [] w).1 = Returned (mkBulkSettingsPayload true 0 [])
            ∧ queries (bulk [] w).2 = queries w ∧ db (bulk [] w).2 = db w)).
Proof.
  eapply bulk_in_both_impl; [|apply bulk_outcome_in_both]. cbn beta.
  intros bulk Hout. split.
  - intros w us. destruct (Hout w us) as (Hret & _).
    eexists. split; [exact Hret|]. simpl.
    assert (map userId (refused (db w) us) = []
            ↔ ∀ u, u ∈ us → select_user (db w) (userId u) ≠ []) as Hall.
    { split.
      - intros Hnil u Hu. apply fmap_nil_inv in Hnil.
        destruct (decide (user_exists (db w) u)) as [H|H]; [done|].
        assert (u ∈ refused (db w) us) as Hin by by apply list_elem_of_filter.
        rewrite Hnil in Hin. by apply elem_of_nil in Hin.
      - intros Hall. destruct (refused (db w) us) as [|u l] eqn:E; [done|].
        assert (u ∈ refused (db w) us) as Hin by (rewrite E; apply elem_of_cons; by left).
        apply list_elem_of_filter in Hin as [Hn Hin]. exfalso. by apply Hn, Hall. }
    rewrite bool_decide_eq_true, length_zero_iff_nil.
    split; [done|]. split; [done|]. intros Hnil.
    pose proof (accepted_refused_length (db w) us) as Hlen.
    apply fmap_nil_inv in Hnil. rewrite Hnil in Hlen. simpl in Hlen. lia.
  - intros w. destruct (Hout w []) as (-> & -> & ->).
    split; [done|]. split; [apply app_nil_r|done].
Qed.

End MutationsMore.

Lemma updateSettings_returns_entries_in_order_witness :
  let entries := [mkSettingInput "theme" "light"; mkSettingInput "lang" "en";
                  mkSettingInput "theme" "solar"] in
  (∃ r, (Pg.updateSettings "U1" entries example_world).1 = Returned r
        ∧ Pg.success r = true ∧ Pg.user r = alice
        ∧ map (λ o, (Pg.key o, Pg.value o)) (Pg.payload_settings r)
          = [("theme", "light"); ("lang", "en"); ("theme", "solar")])
  ∧ queries (Kysely.updateSettings pretty "U1" entries example_world).2
    = [SelectUser "U1"; UpsertSetting "U1" "theme" "light";
       UpsertSetting "U1" "lang" "en"; UpsertSetting "U1" "theme" "solar"].
Proof.
  destruct (updateSettings_returns_entries_in_order pretty example_world "U1" alice []
              [mkSettingInput "theme" "light"; mkSettingInput "lang" "en";
               mkSettingInput "theme" "solar"]) as (_ & Hp & Hq & _).
  - reflexivity.
  - split; [exact Hp|exact Hq].
Defined.

Lemma mutations_write_only_their_keys_witness :
  filter (Store.conflicts "U1" "theme")
         (settings (db (Pg.updateSettings "U1" [mkSettingInput "lang" "en"]
                          example_world).2))
  = [theme_dark]
  ∧ users (db (Pg_mutate example_world
                 (BulkUpdateSettings [mkBulkSettingInput "U3" "lang" "fr"])))
    = [alice; carol].
Proof.
  destruct (mutations_write_only_their_keys pretty example_world) as (Hf & _ & Hu).
  split.
  - apply (Hu "U1" [mkSettingInput "lang" "en"] "U1" "theme"). right. reflexivity.
  - apply (Hf Pg_mutate). by right.
Defined.

Lemma bulk_writes_what_updateSettings_writes_witness :
  let entries := [mkSettingInput "theme" "light"; mkSettingInput "lang" "en"] in
  let pb := db (Pg.bulkUpdateSettings (for_user "U1" entries) example_world).2 in
  let pu := db (Pg.updateSettings "U1" entries example_world).2 in
  map (λ s, (setting_value s, settings_updated_by s))
      (filter (Store.conflicts "U1" "theme") (settings pb))
  = [("light", Some "U3")]
  ∧ map (λ s, (setting_value s, settings_updated_by s))
        (filter (Store.conflicts "U1" "theme") (settings pu))
    = [("light", Some "U3")].
Proof.
  destruct (bulk_writes_what_updateSettings_writes pretty example_world "U1"
              [mkSettingInput "theme" "light"; mkSettingInput "lang" "en"])
    as (_ & _ & _ & H).
  - vm_compute. discriminate.
  - split; [|reflexivity]. rewrite (H "U1" "theme"). reflexivity.
Defined.

Lemma bulk_success_iff_all_users_exist_witness :
  ∃ r, (Pg.bulkUpdateSettings [mkBulkSettingInput "U1" "a" "1";
                               mkBulkSettingInput "U3" "b" "2"] example_world).1
       = Returned r
       ∧ bulk_success r = true ∧ updatedCount r = 2.
Proof.
  destruct (proj1 (proj2 bulk_success_iff_all_users_exist) example_world
              [mkBulkSettingInput "U1" "a" "1"; mkBulkSettingInput "U3" "b" "2"])
    as (r & Hr & Hiff & _ & Hcount).
  assert (bulk_success r = true) as Hs.
  { apply Hiff. intros u Hu.
    apply elem_of_cons in Hu as [->|Hu]; [vm_compute; discriminate|].
    apply list_elem_of_singleton in Hu as ->. vm_compute. discriminate. }
  exists r. split; [exact Hr|]. split; [exact Hs|]. exact (Hcount Hs).
Defined.

(** ** The pg variant: mutations and the cache *)

Section PgInvalidation.
Import Store.

Lemma invalidated_gone us : ∀ c u,
  u ∈ us → invalidated c us !! Pg.user_key (userId u) = None.
Proof.
  induction us as [|u' us IH]; intros c u; [by intros ?%elem_of_nil|].
  intros [->|Hin]%elem_of_cons; simpl; [|by apply IH].
  destruct (invalidated _ us !! _) as [entry|] eqn:E; [|done].
  apply invalidated_lookup in E. by rewrite lookup_delete_eq in E.
Qed.

Lemma invalidated_other us : ∀ c key,
  (∀ u, u ∈ us → key ≠ Pg.user_key (userId u)) →
  invalidated c us !! key = c !! key.
Proof.
  induction us as [|u' us IH]; intros c key H; [done|]. simpl.
  rewrite IH by (intros u Hu; apply H, elem_of_cons; by right).
  apply lookup_delete_ne. intros Hk. apply (H u'); [apply elem_of_cons; by left|done].
Qed.

(** X14.  After a successful [updateSettings] of the pg variant the cache entry
    of the user is gone and no other entry has changed; the next
    [users([id])] for the user asks the store again and returns its row. *)
Theorem Pg_updateSettings_invalidates w U first rest entries :
  select_user (db w) U = first :: rest →
  let w' := (Pg.updateSettings U entries w).2 in
  cache w' = delete (Pg.user_key U) (cache w)
  ∧ Pg.getCache (Pg.user_key U) w' = (Returned None, w')
  ∧ (∀ id, id ≠ U →
       (Pg.getCache (Pg.user_key id) w').1 = (Pg.getCache (Pg.user_key id) w).1)
  ∧ (Pg.Query_users [U] w').1 = Returned [Some first]
  ∧ queries (Pg.Query_users [U] w').2 = queries w' ++ [SelectUser U].
Proof.
  intros Hs w'.
  destruct (Pg_updateSettings_found U entries w first rest Hs) as (objs & Hrun & _).
  assert (cache w' = delete (Pg.user_key U) (cache w)) as Hc
    by (unfold w'; by rewrite Hrun).
  assert (clock w' = clock w) as Ht by (unfold w'; by rewrite Hrun).
  assert (select_user (db w') U = first :: rest) as Hs'.
  { unfold w'. rewrite Hrun. simpl. by rewrite upsert_all_select_user. }
  assert (fresh w' (Pg.user_key U) = None) as Hm.
  { unfold fresh. by rewrite Hc, lookup_delete_eq. }
  split; [done|]. split; [by rewrite getCache_fresh, Hm|]. split.
  - intros id Hne. rewrite !getCache_fresh. unfold fresh. rewrite Hc, Ht.
    rewrite lookup_delete_ne; [done|]. intros Hk. by apply user_key_inj in Hk.
  - destruct (Pg_Query_users_run [U] w') as [c ->]. simpl.
    unfold settled, pending. simpl. rewrite Hm, Hs'. split; [done|].
    rewrite filter_cons, decide_True by done. done.
Qed.

(** X15.  [bulkUpdateSettings] of the pg variant drops the cache entries of the
    users whose entries the store accepted, and no others: the entry of a
    user whose entries were refused stays. *)
Theorem Pg_bulk_invalidates_accepted w us :
  let w' := (Pg.bulkUpdateSettings us w).2 in
  (∀ u, u ∈ us → select_user (db w) (userId u) ≠ [] →
     cache w' !! Pg.user_key (userId u) = None)
  ∧ (∀ key, (∀ u, u ∈ us → select_user (db w) (userId u) ≠ [] →
               key ≠ Pg.user_key (userId u)) →
       cache w' !! key = cache w !! key)
  ∧ (∀ u, u ∈ us → select_user (db w) (userId u) = [] →
       cache w' !! Pg.user_key (userId u) = cache w !! Pg.user_key (userId u)).
Proof.
  intros w'.
  assert (cache w' = invalidated (cache w) (accepted (db w) us)) as ->.
  { unfold w', Pg.bulkUpdateSettings. unfold mbind, M_bind.
    by rewrite Pg_bulk_loop. }
  assert (∀ key, (∀ u, u ∈ us → select_user (db w) (userId u) ≠ [] →
                    key ≠ Pg.user_key (userId u)) →
            invalidated (cache w) (accepted (db w) us) !! key = cache w !! key) as Ho.
  { intros key H. apply invalidated_other. intros u Hu.
    apply list_elem_of_filter in Hu as [Hx Hu]. by apply H. }
  split; [|split; [done|]].
  - intros u Hu Hx. apply invalidated_gone. by apply list_elem_of_filter.
  - intros u Hu Hx. apply Ho. intros u' Hu' Hx' Hk.
    apply user_key_inj in Hk. rewrite Hk in Hx. by apply Hx'.
Qed.

End PgInvalidation.

Lemma Pg_updateSettings_invalidates_witness :
  let w := (Pg.Query_users ["U1"] example_world).2 in
  let w' := (Pg.updateSettings "U1" [mkSettingInput "lang" "en"] w).2 in
  Pg.getCache "user:U1" w = (Returned (Some alice), w)
  ∧ Pg.getCache "user:U1" w' = (Returned None, w')
  ∧ (Pg.Query_users ["U1"] w').1 = Returned [Some alice]
  ∧ queries (Pg.Query_users ["U1"] w').2 = queries w' ++ [SelectUser "U1"].
Proof.
  split; [reflexivity|].
  destruct (Pg_updateSettings_invalidates (Pg.Query_users ["U1"] example_world).2
              "U1" alice [] [mkSettingInput "lang" "en"])
    as (_ & Hm & _ & Hr & Hq).
  - reflexivity.
  - split; [exact Hm|]. split; [exact Hr|exact Hq].
Defined.

Lemma Pg_bulk_invalidates_accepted_witness :
  let w := (Pg.Query_users ["U1"; "U3"] example_world).2 in
  let w' := (Pg.bulkUpdateSettings [mkBulkSettingInput "U1" "a" "1";
                                    mkBulkSettingInput "U2" "b" "2"] w).2 in
  cache w' !! "user:U1" = None
  ∧ cache w' !! "user:U3" = cache w !! "user:U3".
Proof.
  destruct (Pg_bulk_invalidates_accepted (Pg.Query_users ["U1"; "U3"] example_world).2
              [mkBulkSettingInput "U1" "a" "1"; mkBulkSettingInput "U2" "b" "2"])
    as (Hgone & Hkept & _).
  split.
  - apply (Hgone (mkBulkSettingInput "U1" "a" "1")).
    + apply elem_of_cons. by left.
    + vm_compute. discriminate.
  - apply Hkept. intros u Hu Hx.
    apply elem_of_cons in Hu as [->|Hu]; [discriminate|].
    apply list_elem_of_singleton in Hu as ->. discriminate.
Defined.

(** ** Reading back *)

Section ReadBack.
Import Store.

Variable toISOString : Z → string.

(** X16.  What [updateSettings] wrote, [User.settings] returns: for a user that
    exists and a table where (user id, key) is unique, the settings of the
    user read after the call hold exactly one setting under each key of
    the call, with the value of the last entry under that key.  In both
    variants. *)
Theorem settings_read_back w U k v entries :
  settings_unique (settings (db w)) →
  select_user (db w) U ≠ [] →
  last_value k entries = Some v →
  (∃ l o, (Kysely.User_settings toISOString U
             (Kysely.updateSettings toISOString U entries w).2).1 = Returned l
          ∧ filter (λ o, Kysely.key o = k) l = [o] ∧ Kysely.value o = v)
  ∧ (∃ l o, (Pg.User_settings U (Pg.updateSettings U entries w).2).1 = Returned l
            ∧ filter (λ o, Pg.key o = k) l = [o] ∧ Pg.value o = v).
Proof.
  intros Hq Hu Hv. rewrite <- (last_write_for_user U) in Hv.
  destruct (select_user (db w) U) as [|first rest] eqn:Hs; [done|].
  destruct (Kysely_updateSettings_found toISOString U entries w first rest Hs)
    as (kobjs & -> & _).
  destruct (Pg_updateSettings_found U entries w first rest Hs) as (pobjs & -> & _).
  destruct (upsert_all_last_unique (clock w) U k v (for_user U entries) (uuids w)
              (db w) Hq) as (s & Hrows & Hval); [by rewrite Hs|done|].
  unfold Kysely.User_settings, Pg.User_settings, query_settings. run. split.
  - eexists _, (Kysely.setting_obj toISOString s). split; [done|].
    rewrite (filter_map_setting _ Kysely.key) by done.
    by rewrite select_settings_key, Hrows.
  - eexists _, (Pg.setting_obj s). split; [done|].
    rewrite (filter_map_setting _ Pg.key) by done.
    by rewrite select_settings_key, Hrows.
Qed.

(** X17.  [deleteUser] of the Kysely variant leaves the updater references to
    the deleted user in the settings of other users: such a setting is
    still there, and [Setting.updatedBy], which returned the user before,
    now asks the store and returns null. *)
Theorem Kysely_updatedBy_after_deleteUser w id s :
  s ∈ settings (db w) → settings_user_id s ≠ id →
  settings_updated_by s = Some id → id ≠ "" →
  let o := Kysely.setting_obj toISOString s in
  let w' := (Kysely.deleteUser id w).2 in
  Kysely.Setting_updatedBy toISOString o w
    = (Returned (Kysely.user_or_null toISOString (head (select_user (db w) id))),
       sent (SelectUser id) w)
  ∧ s ∈ settings (db w')
  ∧ Kysely.Setting_updatedBy toISOString o w' = (Returned None, sent (SelectUser id) w').
Proof.
  intros Hin Hown Hby Hne o w'.
  assert (∀ w0, Kysely.Setting_updatedBy toISOString o w0
                = (Returned (Kysely.user_or_null toISOString
                               (head (select_user (db w0) id))),
                   sent (SelectUser id) w0)) as Hrun.
  { intros w0. unfold Kysely.Setting_updatedBy, o. simpl. rewrite Hby.
    by rewrite bool_decide_eq_false_2. }
  split; [apply Hrun|]. unfold w'. rewrite Kysely_deleteUser_run. split.
  - simpl. by apply list_elem_of_filter.
  - rewrite Hrun. unfold select_user. simpl.
    by rewrite (filter_eq_filter_ne users_id).
Qed.

(** [me]: without an identity in the context, or with the empty string as
    identity, the result is null and nothing is sent.  With an identity the
    Kysely variant does what [user(id)] does; the pg variant asks the
    store every time, returns its row or null, and neither reads nor fills
    the cache. *)
Lemma me_resolves_identity w :
  (∀ ctxUserId, ctxUserId = None ∨ ctxUserId = Some "" →
     Kysely.Query_me toISOString ctxUserId w = (Returned None, w)
     ∧ Pg.Query_me ctxUserId w = (Returned None, w))
  ∧ (∀ id, id ≠ "" →
       Kysely.Query_me toISOString (Some id) w = Kysely.Query_user toISOString id w
       ∧ Pg.Query_me (Some id) w
         = (Returned (head (select_user (db w) id)), sent (SelectUser id) w)).
Proof.
  split.
  - by intros ctxUserId [-> | ->].
  - intros id Hne. unfold Kysely.Query_me, Pg.Query_me.
    by rewrite bool_decide_eq_false_2.
Qed.

End ReadBack.

Lemma settings_read_back_witness :
  let entries := [mkSettingInput "theme" "light"; mkSettingInput "lang" "en";
                  mkSettingInput "theme" "solar"] in
  ∃ l o, (Pg.User_settings "U1" (Pg.updateSettings "U1" entries example_world).2).1
         = Returned l
         ∧ filter (λ o, Pg.key o = "theme") l = [o] ∧ Pg.value o = "solar".
Proof.
  refine (proj2 (settings_read_back pretty example_world "U1" "theme" "solar"
                   [mkSettingInput "theme" "light"; mkSettingInput "lang" "en";
                    mkSettingInput "theme" "solar"] _ _ _)).
  - intros u k. apply (Nat.le_trans _ _ _ (length_filter _ _)). simpl. lia.
  - vm_compute. discriminate.
  - vm_compute. reflexivity.
Defined.

Lemma Kysely_updatedBy_after_deleteUser_witness :
  let o := Kysely.setting_obj pretty theme_dark in
  let w' := (Kysely.deleteUser "U3" example_world).2 in
  Kysely.Setting_updatedBy pretty o example_world
    = (Returned (Some (Kysely.user_obj pretty carol)),
       sent (SelectUser "U3") example_world)
  ∧ theme_dark ∈ settings (db w')
  ∧ Kysely.Setting_updatedBy pretty o w' = (Returned None, sent (SelectUser "U3") w').
Proof.
  apply (Kysely_updatedBy_after_deleteUser pretty example_world "U3" theme_dark).
  - apply list_elem_of_singleton. reflexivity.
  - discriminate.
  - reflexivity.
  - discriminate.
Defined.

(** ** [users(ids)], continued *)

Section UsersMore.
Import Store.

Variable toISOString : Z → string.

Lemma mapM_cons_world {A B} (f : A → M B) x l w y w1 :
  f x w = (Returned y, w1) → (mapM f (x :: l) w).2 = (mapM f l w1).2.
Proof. intros H. simpl. run. rewrite H. by destruct (mapM f l w1) as [[?|?] ?]. Qed.

Lemma users_after_await_step p w :
  ∃ y, Pg.users_after_await p w
       = (Returned y,
          match p.2 with
          | inr (first :: _) =>
              set_cache (<[Pg.user_key p.1 := mkEntry first (clock w)]> (cache w)) w
          | _ => w
          end).
Proof. destruct p as [id [cached|[|first rest]]]; by eexists. Qed.

(** After the [await]s every entry of the cache is as it was or was written
    at the time of the call ... *)
Lemma users_after_await_cache ps : ∀ w key,
  cache (mapM Pg.users_after_await ps w).2 !! key = cache w !! key
  ∨ ∃ row, cache (mapM Pg.users_after_await ps w).2 !! key
           = Some (mkEntry row (clock w)).
Proof.
  induction ps as [|p ps IH]; intros w key; [by left|].
  destruct (users_after_await_step p w) as [y Hy].
  rewrite (mapM_cons_world _ _ _ _ _ _ Hy).
  destruct p as [id [cached|[|first rest]]]; simpl; try apply IH.
  match goal with |- context [mapM _ ps ?w1] => destruct (IH w1 key) as [->|H] end;
    [|by right].
  simpl. destruct (decide (Pg.user_key id = key)) as [<-|Hne].
  - right. exists first. by rewrite lookup_insert_eq.
  - left. by rewrite lookup_insert_ne.
Qed.

(** ... and every callback that found a row has written one. *)
Lemma users_after_await_filled ps : ∀ w p first rest,
  p ∈ ps → p.2 = inr (first :: rest) →
  ∃ row, cache (mapM Pg.users_after_await ps w).2 !! Pg.user_key p.1
         = Some (mkEntry row (clock w)).
Proof.
  induction ps as [|p' ps IH]; intros w p first rest; [by intros ?%elem_of_nil|].
  destruct (users_after_await_step p' w) as [y Hy].
  rewrite (mapM_cons_world _ _ _ _ _ _ Hy).
  intros [->|Hin]%elem_of_cons Hp.
  - rewrite Hp.
    match goal with |- context [mapM _ ps ?w1] =>
      destruct (users_after_await_cache ps w1 (Pg.user_key p'.1)) as [->|H] end;
      [|done].
    exists first. simpl. by rewrite lookup_insert_eq.
  - destruct p' as [id' [cached|[|first' rest']]]; simpl; try by eapply IH.
    match goal with |- context [mapM _ ps ?w1] =>
      apply (IH w1 p first rest Hin Hp) end.
Qed.

(** X18.  The statements of [users(ids)].  The Kysely variant sends one lookup
    per id, in input order, repeated ids included.  The pg variant sends
    one per position whose id misses the cache when [users] is called, so a
    missing id given twice is looked up twice; it leaves the store and the
    clock alone, and when it returns every id of the call that has a user
    is in the cache, fresh. *)
Theorem users_statements_and_cache w ids :
  queries (Kysely.Query_users toISOString ids w).2 = queries w ++ map SelectUser ids
  ∧ queries (Pg.Query_users ids w).2
    = queries w ++ map SelectUser
                     (filter (λ id, (Pg.getCache (Pg.user_key id) w).1 = Returned None) ids)
  ∧ db (Pg.Query_users ids w).2 = db w
  ∧ clock (Pg.Query_users ids w).2 = clock w
  ∧ (∀ id, id ∈ ids → select_user (db w) id ≠ [] →
       ∃ row, Pg.getCache (Pg.user_key id) (Pg.Query_users ids w).2
              = (Returned (Some row), (Pg.Query_users ids w).2)).
Proof.
  split; [by rewrite Kysely_Query_users_run|].
  destruct (Pg_Query_users_run ids w) as [c Hrun].
  split; [|split; [by rewrite Hrun|split; [by rewrite Hrun|]]].
  - rewrite Hrun. simpl. do 2 f_equal. apply list_filter_iff. intros id.
    rewrite getCache_fresh. simpl. split; [by intros ->|by intros [= ->]].
  - intros id Hin Hu.
    assert (clock (Pg.Query_users ids w).2 = clock w) as Ht by by rewrite Hrun.
    assert (∃ entry, cache (Pg.Query_users ids w).2 !! Pg.user_key id = Some entry
                     ∧ (clock w - timestamp entry < Pg.CACHE_TTL)%Z)
      as (entry & He & Hage).
    { unfold Pg.Query_users. unfold mbind, M_bind. rewrite Pg_users_until_await.
      set (w1 := sent_all _ w).
      destruct (fresh w (Pg.user_key id)) as [cached|] eqn:Hf.
      - unfold fresh in Hf.
        destruct (cache w !! Pg.user_key id) as [entry|] eqn:Hc; [|done].
        destruct (decide _) as [Hage|]; [|done].
        destruct (users_after_await_cache (map (pending w) ids) w1 (Pg.user_key id))
          as [H|[row H]].
        + exists entry. by rewrite H.
        + eexists. split; [exact H|]. simpl. unfold Pg.CACHE_TTL. lia.
      - destruct (select_user (db w) id) as [|first rest] eqn:Hs; [done|].
        destruct (users_after_await_filled (map (pending w) ids) w1
                    (pending w id) first rest) as [row H].
        + apply list_elem_of_fmap. by exists id.
        + unfold pending. simpl. by rewrite Hf, Hs.
        + eexists. split; [exact H|]. simpl. unfold Pg.CACHE_TTL. lia. }
    exists (data entry). rewrite getCache_fresh. unfold fresh.
    rewrite He, Ht. by rewrite decide_True.
Qed.

(** X19.  With a cache that agrees with the store the two variants resolve
    the same users: what the pg variant returns at each position of
    [users(ids)], for [me], and for [user(id)] when the store reads the
    spliced id as the id, is the row that the Kysely variant returns with
    its creation date as a string. *)
Theorem variants_resolve_the_same_users
    (where_id : string → Database → DbError + list UserRow) w :
  cache_coherent w →
  (∀ id r, reads_as_id where_id id (db w) →
     (Pg.Query_user where_id id w).1 = Returned r →
     (Kysely.Query_user toISOString id w).1
     = Returned (Kysely.user_or_null toISOString r))
  ∧ (∀ ids l, (Pg.Query_users ids w).1 = Returned l →
       (Kysely.Query_users toISOString ids w).1
       = Returned (map (Kysely.user_or_null toISOString) l))
  ∧ (∀ ctxUserId r, (Pg.Query_me ctxUserId w).1 = Returned r →
       (Kysely.Query_me toISOString ctxUserId w).1
       = Returned (Kysely.user_or_null toISOString r)).
Proof.
  intros Hc. split; [|split].
  - intros id r Hr. rewrite Pg_Query_user_settled, settled_coherent by done.
    intros [= <-]. by rewrite Kysely_Query_user_run.
  - intros ids l. destruct (Pg_Query_users_run ids w) as [c ->]. simpl.
    intros [= <-]. rewrite Kysely_Query_users_run. simpl. f_equal.
    rewrite map_map. apply map_ext. intros id. by rewrite settled_coherent.
  - intros [id|] r; [|by intros [= <-]].
    unfold Pg.Query_me, Kysely.Query_me.
    destruct (bool_decide (id = "")); [by intros [= <-]|].
    unfold Kysely.select_user_first, query_user. run. by intros [= <-].
Qed.

End UsersMore.

Lemma users_statements_and_cache_witness :
  let w' := (Pg.Query_users ["U2"; "U1"; "U2"; "U1"] example_world).2 in
  queries w' = [SelectUser "U2"; SelectUser "U1"; SelectUser "U2"; SelectUser "U1"]
  ∧ ∃ row, Pg.getCache "user:U1" w' = (Returned (Some row), w').
Proof.
  destruct (users_statements_and_cache pretty example_world ["U2"; "U1"; "U2"; "U1"])
    as (_ & Hq & _ & _ & Hc).
  split; [exact Hq|]. apply (Hc "U1").
  - apply elem_of_cons. right. apply elem_of_cons. by left.
  - vm_compute. discriminate.
Defined.

Lemma variants_resolve_the_same_users_witness :
  (Kysely.Query_users pretty ["U1"; "U2"] example_world).1
  = Returned [Some (Kysely.user_obj pretty alice); None].
Proof.
  refine (proj1 (proj2 (variants_resolve_the_same_users pretty example_where_id
                          example_world _))
            ["U1"; "U2"] [Some alice; None] _).
  - intros id entry He. by vm_compute in He.
  - reflexivity.
Defined.
